(** * Battery health metrics: a shallow embedding of the computation core

    The development follows [backend/health_processing.py]
    (class [BatteryHealthProcessor]) and [backend/upload_handler.py]
    (method [_check_thresholds]).

    Numbers.  The Python code computes on binary64 floats; here every
    number is an exact rational ([Q], compared with [==]), and a float
    that may be nan is a value of the type [float].  Rounding error and
    infinities are outside the model: a statement below says what the
    arithmetic of the code computes, not how a float deviates from it.
    nan enters through the empty cells of a measurement file and is
    followed from there.

    Library calls.  [numpy], [scipy] and [pandas] are not part of the
    repository.  The few operations the code uses are written out from
    their documented behaviour in the modules [np], [scipy] and [pd]:
    [np.clip], [np.mean], [np.searchsorted], [np.polyfit] of degree one,
    [interp1d] with [kind='linear'] and [fill_value='extrapolate'],
    [Series.unique], [sort_values], and how [read_csv] types a column. *)

From stdpp Require Import gmap strings.
From Stdlib Require Import QArith Qround Qabs Qminmax Lqa Lia List ZArith Permutation
  Sorting.Sorted Morphisms Setoid.
Import ListNotations.
Local Open Scope Q_scope.

(* ================================================================== *)
(** ** Exceptions *)

Inductive exn :=
  TypeError | ValueError | IndexError | ZeroDivisionError | LinAlgError | KeyError.

Inductive result (A : Type) : Type :=
| OK (a : A)
| Raise (e : exn).
Arguments OK {A} a.
Arguments Raise {A} e.

Definition bind {A B} (m : result A) (k : A -> result B) : result B :=
  match m with
  | OK a => k a
  | Raise e => Raise e
  end.

#[global] Instance result_ret : MRet result := fun A a => OK a.
#[global] Instance result_bind : MBind result := fun A B k m => bind m k.

Definition raises {A} (m : result A) : Prop := exists e, m = Raise e.

(** A [for] loop that appends one value per element: the first exception
    leaves the loop and the values collected so far are lost. *)
Fixpoint for_each {A B} (f : A -> result B) (l : list A) : result (list B) :=
  match l with
  | [] => OK []
  | a :: tl => b ← f a; bs ← for_each f tl; OK (b :: bs)
  end.

(* ================================================================== *)
(** ** Python builtins *)

(** [max(a, b)]: the second argument wins only when strictly larger. *)
Definition py_max (a b : Q) : Q := if Qlt_le_dec a b then b else a.

Fixpoint insert_sorted (v : Q) (l : list Q) : list Q :=
  match l with
  | [] => [v]
  | w :: tl => if Qle_bool v w then v :: l else w :: insert_sorted v tl
  end.

(** [sorted(keys)], ascending. *)
Definition sorted (l : list Q) : list Q := fold_right insert_sorted [] l.

(** [table[v]] on a dict literal with numeric keys; the code only looks up
    keys of the dict. *)
Definition dict_get (table : list (Q * Q)) (v : Q) : Q :=
  match List.find (fun p => Qeq_bool (fst p) v) table with
  | Some p => snd p
  | None => 0
  end.

(** Round half to even, the rule of both [round] and [numpy.rint]. *)
Definition rint (x : Q) : Z :=
  let f := Qfloor x in
  let r := x - inject_Z f in
  if Qlt_le_dec r (1 # 2) then f
  else if Qlt_le_dec (1 # 2) r then (f + 1)%Z
  else if Z.even f then f else (f + 1)%Z.

(** [round(x, 2)] on the exact value; the result is returned in lowest
    terms.  Python rounds the stored binary64 value, which at a tie of the
    decimal notation lies a little above or below it, so that the exact
    rule and the code can differ there by one hundredth. *)
Definition round2 (x : Q) : Q := Qred (inject_Z (rint (x * 100)) / 100).

(** [int(x)] of a cell id; on nan it raises. *)
Definition py_int (x : option Z) : result Z :=
  match x with
  | Some c => OK c
  | None => Raise ValueError
  end.

(* ================================================================== *)
(** ** Floats that may be nan *)

Inductive float :=
| Fin (q : Q)
| NaN.

Coercion Fin : Q >-> float.

(** An arithmetic operation of one argument: nan gives nan. *)
Definition float_map (f : Q -> Q) (x : float) : float :=
  match x with
  | Fin q => Fin (f q)
  | NaN => NaN
  end.

(** [x <= y]: a comparison with nan is false. *)
Definition float_leb (x y : float) : bool :=
  match x, y with
  | Fin a, Fin b => Qle_bool a b
  | _, _ => false
  end.

(** [x != 0]: true for nan. *)
Definition float_ne_zero (x : float) : bool :=
  match x with
  | Fin c => negb (Qeq_bool c 0)
  | NaN => true
  end.

(** [max(a, b)] with a float [b]: [b > a] is false for nan, which
    therefore never wins. *)
Definition py_max_float (a : Q) (b : float) : Q :=
  match b with
  | Fin q => py_max a q
  | NaN => a
  end.

(* ================================================================== *)
(** ** numpy *)

(** A cell of a CSV file: [Num q] is a cell that spells the number [q],
    [Text s] a cell with any other content [s], the empty cell
    included. *)
Inductive field :=
| Num (q : Q)
| Text (s : string).

(** The contents [read_csv] reads as a missing value, its default
    [na_values]; the first one is the empty cell. *)
Definition na_values : list string :=
  [ EmptyString; "#N/A"; "#N/A N/A"; "#NA"; "-1.#IND"; "-1.#QNAN"; "-NaN";
    "-nan"; "1.#IND"; "1.#QNAN"; "<NA>"; "N/A"; "NA"; "NULL"; "NaN"; "None";
    "n/a"; "nan"; "null" ]%string.

(** The cell is read as a missing value (nan). *)
Definition isna (f : field) : bool :=
  match f with
  | Text s => existsb (String.eqb s) na_values
  | Num _ => false
  end.

(** The cell is kept as a string: neither a number nor a missing value. *)
Definition is_text (f : field) : bool :=
  match f with
  | Text _ => negb (isna f)
  | Num _ => false
  end.

Definition as_num (f : field) : Q :=
  match f with Num q => q | Text _ => 0 end.

(** The value of a cell in a column of floats. *)
Definition to_float (f : field) : float :=
  match f with Num q => Fin q | Text _ => NaN end.

(** One-dimensional arrays: [float64] without nan; [float64] with a
    nan, given by the numbers before the first nan and the entries after
    it; or [object], with the strings of a text column (there [Num q]
    stands for the string that spells [q], and a missing value is nan). *)
Inductive ndarray :=
| FloatArr (l : list Q)
| NanArr (before : list Q) (after : list float)
| ObjArr (l : list field).

Definition len (a : ndarray) : nat :=
  match a with
  | FloatArr l => length l
  | NanArr before after => S (length before + length after)
  | ObjArr l => length l
  end.

(** The entries of a [float64] array that holds a nan. *)
Definition nan_entries (before : list Q) (after : list float) : list float :=
  map Fin before ++ NaN :: after.

Module np.

Definition maximum (a b : Q) : Q := if Qlt_le_dec a b then b else a.
Definition minimum (a b : Q) : Q := if Qlt_le_dec b a then b else a.

(** [np.clip(a, a_min, a_max)] is [minimum(a_max, maximum(a, a_min))]. *)
Definition clip (a a_min a_max : Q) : Q := minimum (maximum a a_min) a_max.

(** [np.searchsorted(xs, v)] with the default [side='left'] on an
    ascending array: the number of entries strictly below [v]. *)
Fixpoint searchsorted (xs : list Q) (v : Q) : nat :=
  match xs with
  | [] => O
  | x :: tl => if Qlt_le_dec x v then S (searchsorted tl v) else O
  end.

Definition sum (l : list Q) : Q := fold_right Qplus 0 l.

(** Mean of a float sequence.  On the empty one numpy returns nan; the
    code reaches [mean] only with at least one entry. *)
Definition mean_f (l : list Q) : Q := sum l / inject_Z (Z.of_nat (length l)).

(** The numbers of a sequence of floats up to its first nan, and the
    entries after that nan if there is one. *)
Fixpoint split_nan (l : list float) : list Q * option (list float) :=
  match l with
  | [] => ([], None)
  | Fin q :: tl => let (qs, rest) := split_nan tl in (q :: qs, rest)
  | NaN :: tl => ([], Some tl)
  end.

(** The [float64] array with the entries [l]. *)
Definition array (l : list float) : ndarray :=
  match split_nan l with
  | (qs, None) => FloatArr qs
  | (qs, Some after) => NanArr qs after
  end.

(** [np.mean] of an array: nan on an empty array (with a warning) and on
    an array that holds a nan; summing strings and dividing raises. *)
Definition mean (a : ndarray) : result float :=
  match a with
  | FloatArr [] => OK NaN
  | FloatArr l => OK (Fin (mean_f l))
  | NanArr _ _ => OK NaN
  | ObjArr _ => Raise TypeError
  end.

Definition nonzero (c : Q) : bool := negb (Qeq_bool c 0).

(** [a != 0] elementwise; nan and a string are never equal to [0]. *)
Definition ne_zero (a : ndarray) : list bool :=
  match a with
  | FloatArr l => map nonzero l
  | NanArr before after => map float_ne_zero (nan_entries before after)
  | ObjArr l => map (fun _ => true) l
  end.

(** [mask.sum()] *)
Definition count_true (mask : list bool) : nat :=
  length (List.filter id mask).

Fixpoint select {A} (l : list A) (mask : list bool) : list A :=
  match l, mask with
  | a :: l', b :: mask' => if b then a :: select l' mask' else select l' mask'
  | _, _ => []
  end.

(** [a[mask]]: the mask must be as long as the array. *)
Definition index_mask (a : ndarray) (mask : list bool) : result ndarray :=
  if Nat.eqb (len a) (length mask) then
    match a with
    | FloatArr l => OK (FloatArr (select l mask))
    | NanArr before after => OK (array (select (nan_entries before after) mask))
    | ObjArr l => OK (ObjArr (select l mask))
    end
  else Raise IndexError.

Definition dot (x y : list Q) : Q := sum (map (fun p => fst p * snd p) (combine x y)).

(** [np.polyfit(x, y, 1)] on floats, as [(slope, intercept)].  numpy
    solves the least-squares problem for the Vandermonde matrix with
    columns [x] and [1], each scaled to unit norm, by [lstsq].  When
    the two columns are independent (Gram determinant
    [n * Sxx - Sx * Sx] not zero) the solution is the one of the normal
    equations.  Otherwise all [x] are one value [a], the matrix has rank
    one, numpy warns and [lstsq] returns the solution of least norm in
    the scaled coordinates: [mean(y) / (2 a)] and [mean(y) / 2]. *)
Definition polyfit1_f (x y : list Q) : Q * Q :=
  let n := inject_Z (Z.of_nat (length x)) in
  let Sx := sum x in
  let Sy := sum y in
  let Sxx := dot x x in
  let Sxy := dot x y in
  let D := n * Sxx - Sx * Sx in
  if Qeq_bool D 0 then
    let a := hd 0 x in
    (Sy / n / (2 * a), Sy / n / 2)
  else
    let m := (n * Sxy - Sx * Sy) / D in
    (m, (Sy - m * Sx) / n).

(** [np.polyfit(x, y, 1)] on arrays.  [x = asarray(x) + 0.0] and the
    same for [y] raise on an array of strings.  With a nan in [x] the
    matrix handed to [lstsq] holds nan and the LAPACK driver does not
    converge, which numpy reports as [LinAlgError].  With a nan in [y]
    only, the driver succeeds and both coefficients are nan. *)
Definition polyfit1 (x y : ndarray) : result (float * float) :=
  match x, y with
  | ObjArr _, _ | _, ObjArr _ => Raise TypeError
  | FloatArr xs, FloatArr ys =>
      let coeffs := polyfit1_f xs ys in OK (Fin (fst coeffs), Fin (snd coeffs))
  | NanArr _ _, _ => Raise LinAlgError
  | FloatArr _, NanArr _ _ => OK (NaN, NaN)
  end.

End np.

(* ================================================================== *)
(** ** scipy.interpolate *)

Module scipy.

(** [interp1d(x, y, kind='linear', fill_value='extrapolate')(x_new)]:
    the insertion index is clipped to [1 .. len(x)-1], so a point
    outside the table is evaluated on the first or the last segment. *)
Definition interp1d (x y : list Q) (x_new : Q) : Q :=
  let x_new_indices :=
    Nat.min (Nat.max (np.searchsorted x x_new) 1) (length x - 1) in
  let lo := (x_new_indices - 1)%nat in
  let hi := x_new_indices in
  let x_lo := nth lo x 0 in
  let x_hi := nth hi x 0 in
  let y_lo := nth lo y 0 in
  let y_hi := nth hi y 0 in
  let slope := (y_hi - y_lo) / (x_hi - x_lo) in
  slope * (x_new - x_lo) + y_lo.

End scipy.

(* ================================================================== *)
(** ** pandas *)

(** One line of the measurement file.  The timestamp is the parsed
    instant; an empty [cell_id] is read as missing. *)
Record row := {
  timestamp : Z;
  cell_id : option Z;
  voltage_v : field;
  current_a : field;
  temperature_c : field
}.

Module pd.

Definition eqb_id (a b : option Z) : bool :=
  match a, b with
  | Some x, Some y => Z.eqb x y
  | None, None => true
  | _, _ => false
  end.

(** [Series.unique()]: values in order of first appearance, found with a
    table of the values already seen (missing values count as one). *)
Fixpoint unique_from (seen : list (option Z)) (l : list (option Z))
  : list (option Z) :=
  match l with
  | [] => []
  | x :: tl =>
      if existsb (eqb_id x) seen then unique_from seen tl
      else x :: unique_from (x :: seen) tl
  end.

Definition unique (l : list (option Z)) : list (option Z) := unique_from [] l.

(** [df[df['cell_id'] == c]]. *)
Definition select_cell (df : list row) (c : Z) : list row :=
  List.filter (fun r => eqb_id (cell_id r) (Some c)) df.

Fixpoint insert_by_timestamp (r : row) (l : list row) : list row :=
  match l with
  | [] => [r]
  | r' :: tl =>
      if (timestamp r <=? timestamp r')%Z then r :: l
      else r' :: insert_by_timestamp r tl
  end.

(** [sort_values('timestamp')], ascending. *)
Definition sort_values (l : list row) : list row :=
  fold_right insert_by_timestamp [] l.

(** [read_csv] gives a column the type [object] as soon as one of its
    entries is kept as a string; every entry of that column is then a
    string or a missing value. *)
Definition is_object (col : row -> field) (df : list row) : bool :=
  existsb (fun r => is_text (col r)) df.

(** [sel[col].values] for a selection [sel] of the rows of [df]: in a
    column of floats a missing value is nan. *)
Definition values (col : row -> field) (df sel : list row) : ndarray :=
  if is_object col df then ObjArr (map col sel)
  else np.array (map (fun r => to_float (col r)) sel).

End pd.

(* ================================================================== *)
(** ** backend/health_processing.py *)

(** A metric record.  The state of charge and the temperature are nan
    when the cell has a missing voltage or temperature; the resistance
    comes out of [max(0, ...)] and the state of health is computed from
    it, so that these two are always numbers. *)
Record metric := {
  m_cell_id : Z;
  soc_percent : float;
  soh_percent : Q;
  internal_resistance : Q;
  m_temperature_c : float
}.


Module BatteryHealthProcessor.

(** Voltage-SoC lookup table for NMC chemistry. *)
Definition VOLTAGE_SOC_TABLE : list (Q * Q) :=
  [ (2.75, 0); (3.0, 5); (3.3, 10); (3.5, 20); (3.6, 30);
    (3.65, 40); (3.7, 50); (3.75, 60); (3.8, 70); (3.9, 80);
    (4.0, 90); (4.1, 95); (4.2, 100) ].

Record t := { nominal_capacity_ah : Q }.

(** [BatteryHealthProcessor()] *)
Definition default : t := {| nominal_capacity_ah := 50 |}.

(** [_build_soc_interpolator]: the keys sorted, with their values. *)
Definition voltages : list Q := sorted (map fst VOLTAGE_SOC_TABLE).
Definition socs : list Q := map (dict_get VOLTAGE_SOC_TABLE) voltages.
Definition _build_soc_interpolator : Q -> Q := scipy.interp1d voltages socs.

(** [self.soc_interpolator], set by [__init__]. *)
Definition soc_interpolator (v : Q) : Q := _build_soc_interpolator v.

Definition estimate_soc (voltage : Q) : Q :=
  let soc := soc_interpolator voltage in
  np.clip soc 0 100.

Definition calculate_internal_resistance
    (voltage_data current_data : ndarray) : result Q :=
  if (len voltage_data <? 2)%nat || (len current_data <? 2)%nat then OK 0
  else
    let mask := np.ne_zero current_data in
    if (np.count_true mask <? 2)%nat then OK 0
    else
      v_filtered ← np.index_mask voltage_data mask;
      i_filtered ← np.index_mask current_data mask;
      coeffs ← np.polyfit1 i_filtered v_filtered;
      let resistance_ohms := float_map Qopp (fst coeffs) in
      OK (py_max_float 0 (float_map (fun r => r * 1000) resistance_ohms)).

Definition base_resistance : Q := 50.
Definition aged_resistance : Q := 150.

Definition resistance_soh (internal_resistance : Q) : Q :=
  if Qle_bool internal_resistance base_resistance then 100
  else if Qle_bool aged_resistance internal_resistance then 70
  else 100 - 30 * (internal_resistance - base_resistance)
                / (aged_resistance - base_resistance).

Definition estimate_soh (self : t)
    (current_capacity_ah : option Q) (internal_resistance : option Q)
    (cycles : Z) : result Q :=
  let soh_factors := [] in
  soh_factors ←
    match current_capacity_ah with
    | Some cap =>
        if Qeq_bool (nominal_capacity_ah self) 0 then Raise ZeroDivisionError
        else
          let capacity_soh := cap / nominal_capacity_ah self * 100 in
          OK (soh_factors ++ [capacity_soh])
    | None => OK soh_factors
    end;
  let soh_factors :=
    match internal_resistance with
    | Some r => soh_factors ++ [resistance_soh r]
    | None => soh_factors
    end in
  let soh_factors :=
    if (0 <? cycles)%Z then
      let cycle_soh := 100 - (inject_Z cycles / 2000) * 20 in
      soh_factors ++ [py_max 70 cycle_soh]
    else soh_factors in
  match soh_factors with
  | [] => OK 100
  | _ => OK (np.clip (np.mean_f soh_factors) 0 100)
  end.

(** The body of the loop over [df['cell_id'].unique()].  For a missing
    id, which is nan, the comparison [df['cell_id'] == cell_id] selects no
    row; the body runs on the empty selection and [int(cell_id)] raises
    when the record is built.  A nan average goes through the
    interpolator, [np.clip] and [round] as nan. *)
Definition process_cell (self : t) (df : list row) (cell : option Z)
  : result metric :=
  let cell_data :=
    pd.sort_values
      match cell with
      | Some c => pd.select_cell df c
      | None => []
      end in
  let voltages := pd.values voltage_v df cell_data in
  let currents := pd.values current_a df cell_data in
  let temperatures := pd.values temperature_c df cell_data in
  avg_voltage ← np.mean voltages;
  let soc := float_map estimate_soc avg_voltage in
  internal_resistance ← calculate_internal_resistance voltages currents;
  soh ← estimate_soh self None (Some internal_resistance) 0;
  avg_temp ← np.mean temperatures;
  id ← py_int cell;
  OK {| m_cell_id := id;
        soc_percent := float_map round2 soc;
        soh_percent := round2 soh;
        internal_resistance := round2 internal_resistance;
        m_temperature_c := float_map round2 avg_temp |}.

(** [process_measurement_file], from the rows [read_csv] returns. *)
Definition process_measurement_file (self : t) (df : list row)
  : result (list metric) :=
  for_each (process_cell self df) (pd.unique (map cell_id df)).

End BatteryHealthProcessor.

(* ================================================================== *)
(** ** backend/upload_handler.py *)

Module UploadHandler.

(** [all(checks)] *)
Definition all (checks : list bool) : bool := forallb id checks.

Definition _check_thresholds (metric_data : metric)
    (thresholds : gmap string (option Q * option Q)) : bool :=
  let checks := [] in
  let checks :=
    match thresholds !! "soh"%string with
    | Some (min_val, max_val) =>
        match min_val with
        | Some min_val => checks ++ [Qle_bool min_val (soh_percent metric_data)]
        | None => checks
        end
    | None => checks
    end in
  let checks :=
    match thresholds !! "resistance"%string with
    | Some (min_val, max_val) =>
        match max_val with
        | Some max_val =>
            checks ++ [Qle_bool (internal_resistance metric_data) max_val]
        | None => checks
        end
    | None => checks
    end in
  let checks :=
    match thresholds !! "temperature"%string with
    | Some (min_val, max_val) =>
        match max_val with
        | Some max_val =>
            checks ++ [float_leb (m_temperature_c metric_data) (Fin max_val)]
        | None => checks
        end
    | None => checks
    end in
  match checks with
  | [] => true
  | _ => all checks
  end.

End UploadHandler.

(* ================================================================== *)
(** ** Vocabulary of the statements *)

(** Consecutive entries of a table. *)
Definition adjacent {A} (l : list A) : list (A * A) := combine l (tl l).

(** The straight line through two calibration points, at [v]. *)
Definition lerp (p0 p1 : Q * Q) (v : Q) : Q :=
  snd p0 + (snd p1 - snd p0) * (v - fst p0) / (fst p1 - fst p0).

Definition first_segment : (Q * Q) * (Q * Q) := ((2.75, 0), (3.0, 5)).
Definition last_segment : (Q * Q) * (Q * Q) := ((4.1, 95), (4.2, 100)).

(** Sum of [f] over a list. *)
Definition sumf {A} (f : A -> Q) (l : list A) : Q := np.sum (map f l).

(** The samples a resistance fit uses, as points [(current, voltage)]:
    those whose current is not zero. *)
Definition nonzero_current (p : Q * Q) : bool := np.nonzero (fst p).

Definition usable_samples (voltages currents : list Q) : list (Q * Q) :=
  List.filter nonzero_current (combine currents voltages).

(** Sum of squared residuals of the line [y = m x + b] on the points. *)
Definition sse (pts : list (Q * Q)) (m b : Q) : Q :=
  sumf (fun p => (snd p - (m * fst p + b)) * (snd p - (m * fst p + b))) pts.

(** [(m, b)] is an ordinary-least-squares fit of the points: no line has
    a smaller sum of squared residuals. *)
Definition is_ols_fit (pts : list (Q * Q)) (m b : Q) : Prop :=
  forall m' b', sse pts m b <= sse pts m' b'.

(** The Gram determinant of the design matrix, [n Sxx - Sx Sx]. *)
Definition gram (pts : list (Q * Q)) : Q :=
  inject_Z (Z.of_nat (length pts)) * sumf (fun p => fst p * fst p) pts
  - sumf fst pts * sumf fst pts.

(** The textbook slope [(n Sxy - Sx Sy) / (n Sxx - Sx Sx)]. *)
Definition ols_slope (pts : list (Q * Q)) : Q :=
  (inject_Z (Z.of_nat (length pts)) * sumf (fun p => fst p * snd p) pts
   - sumf fst pts * sumf snd pts) / gram pts.

(** [x] clamped to the interval [lo, hi]. *)
Definition clamp (x lo hi : Q) : Q := Qmax lo (Qmin hi x).

(** The three health factors, as the specification words them. *)
Definition capacity_factor (nominal capacity_ah : Q) : Q :=
  capacity_ah / nominal * 100.

Definition resistance_factor (r : Q) : Q :=
  if Qle_bool r 50 then 100
  else if Qle_bool 150 r then 70
  else lerp (50, 100) (150, 70) r.

Definition cycle_factor (cycles : Z) : Q :=
  Qmax 70 (100 - (inject_Z cycles / 2000) * 20).

Definition factor_value (f : option Q) : Q :=
  match f with Some x => x | None => 0 end.

Definition factor_count (f : option Q) : Z :=
  match f with Some _ => 1 | None => 0 end.

(** The fixed combination rule over the optional inputs: the mean of the
    factors that are present, clamped; 100 when none is. *)
Definition soh_spec (nominal : Q) (capacity_ah resistance : option Q) (cycles : Z) : Q :=
  let f1 := option_map (capacity_factor nominal) capacity_ah in
  let f2 := option_map resistance_factor resistance in
  let f3 := if (0 <? cycles)%Z then Some (cycle_factor cycles) else None in
  let total := factor_value f1 + factor_value f2 + factor_value f3 in
  let count := (factor_count f1 + factor_count f2 + factor_count f3)%Z in
  if (count =? 0)%Z then 100 else clamp (total / inject_Z count) 0 100.

(** The three checks of the threshold policy; a check that does not apply
    counts as passed. *)
Definition soh_check (m : metric) (t : gmap string (option Q * option Q)) : bool :=
  match t !! "soh"%string with
  | Some (Some min_value, _) => Qle_bool min_value (soh_percent m)
  | _ => true
  end.

Definition resistance_check (m : metric) (t : gmap string (option Q * option Q)) : bool :=
  match t !! "resistance"%string with
  | Some (_, Some max_value) => Qle_bool (internal_resistance m) max_value
  | _ => true
  end.

Definition temperature_check (m : metric) (t : gmap string (option Q * option Q)) : bool :=
  match t !! "temperature"%string with
  | Some (_, Some max_value) => float_leb (m_temperature_c m) (Fin max_value)
  | _ => true
  end.

(** No check applies: each of the three entries is absent or has its
    relevant bound unset. *)
Definition no_check_applies (t : gmap string (option Q * option Q)) : Prop :=
  (forall min_value max_value,
      t !! "soh"%string <> Some (Some min_value, max_value)) /\
  (forall min_value max_value,
      t !! "resistance"%string <> Some (min_value, Some max_value)) /\
  (forall min_value max_value,
      t !! "temperature"%string <> Some (min_value, Some max_value)).

(** Two threshold mappings agree on every bound the policy reads. *)
Definition same_read_bounds (t1 t2 : gmap string (option Q * option Q)) : Prop :=
  (fst <$> t1 !! "soh"%string) = (fst <$> t2 !! "soh"%string) /\
  (snd <$> t1 !! "resistance"%string) = (snd <$> t2 !! "resistance"%string) /\
  (snd <$> t1 !! "temperature"%string) = (snd <$> t2 !! "temperature"%string).

(** Position of the first occurrence of [a] in [l]. *)
Fixpoint first_index (a : option Z) (l : list (option Z)) : nat :=
  match l with
  | [] => O
  | x :: tl => if pd.eqb_id x a then O else S (first_index a tl)
  end.

(** [x <= y] on floats as a proposition: false as soon as one side is
    nan. *)
Definition float_le (x y : float) : Prop :=
  match x, y with
  | Fin a, Fin b => a <= b
  | _, _ => False
  end.

(** The cell spells a number. *)
Definition is_number (f : field) : bool :=
  match f with Num _ => true | Text _ => false end.

(** The cell is read as a missing value: empty, or one of the reader's
    tokens for a missing value. *)
Definition read_as_missing (f : field) : Prop :=
  exists s, f = Text s /\ In s na_values.


(** A row with a present cell id and three numeric readings. *)
Definition well_formed_row (r : row) : bool :=
  match cell_id r with Some _ => true | None => false end
  && is_number (voltage_v r)
  && is_number (current_a r)
  && is_number (temperature_c r).

Definition well_formed (df : list row) : Prop := forallb well_formed_row df = true.


(** The rows of cell [c], in the order of the file. *)
Definition rows_of_cell (df : list row) (c : Z) : list row :=
  List.filter (fun r => bool_decide (cell_id r = Some c)) df.

(** Rows in ascending order of their timestamps. *)
Definition time_ordered (g : list row) : Prop :=
  Sorted (fun a b => (timestamp a <= timestamp b)%Z) g.

(** The numeric readings of a group of rows, in the order of the rows. *)
Definition voltages_of (g : list row) : list Q := map (fun r => as_num (voltage_v r)) g.
Definition currents_of (g : list row) : list Q := map (fun r => as_num (current_a r)) g.
Definition temperatures_of (g : list row) : list Q :=
  map (fun r => as_num (temperature_c r)) g.

(** The arithmetic mean. *)
Definition average (l : list Q) : Q :=
  sumf (fun x => x) l / inject_Z (Z.of_nat (length l)).

(** A value with at most two decimals. *)
Definition two_decimals (x : Q) : Prop := exists k : Z, x == inject_Z k / 100.

(** [y] is [x] rounded to two decimals: a value with two decimals at most
    half a hundredth away.  At a tie both neighbours qualify. *)
Definition rounded2 (x y : Q) : Prop :=
  two_decimals y /\ Qabs (y - x) <= 1 # 200.

(** [m] is the metric record of cell [c] for the rows [g]: the state of
    charge of the average voltage, the resistance of the whole series, the
    state of health from that resistance alone, the average temperature,
    each rounded to two decimals. *)
Definition record_of (self : BatteryHealthProcessor.t) (c : Z) (g : list row)
    (m : metric) : Prop :=
  m_cell_id m = c /\
  exists r s soc temp,
    BatteryHealthProcessor.calculate_internal_resistance
      (FloatArr (voltages_of g)) (FloatArr (currents_of g)) = OK r /\
    BatteryHealthProcessor.estimate_soh self None (Some r) 0 = OK s /\
    soc_percent m = Fin soc /\
    rounded2 (BatteryHealthProcessor.estimate_soc (average (voltages_of g))) soc /\
    rounded2 s (soh_percent m) /\
    rounded2 r (internal_resistance m) /\
    m_temperature_c m = Fin temp /\
    rounded2 (average (temperatures_of g)) temp.



(** The loop body fails for the entry [x] of the list of cell ids, whose
    rows are [g]: a voltage or a temperature column of strings, a missing
    id, a current column of strings together with at least two rows, or
    a nan current among at least two currents that pass the mask. *)
Definition cell_fails (df : list row) (x : option Z) (g : list row) : Prop :=
  pd.is_object voltage_v df = true \/
  pd.is_object temperature_c df = true \/
  x = None \/
  (pd.is_object current_a df = true /\ (2 <= length g)%nat) \/
  (In NaN (map (fun r => to_float (current_a r)) g) /\
   (2 <= length (List.filter float_ne_zero
                   (map (fun r => to_float (current_a r)) g)))%nat).



(** Two cells with interleaved rows; cell 2 appears first. *)
Definition interleaved_file : list row :=
  [ {| timestamp := 10; cell_id := Some 2%Z; voltage_v := Num 3.7;
       current_a := Num 1; temperature_c := Num 25 |};
    {| timestamp := 10; cell_id := Some 1%Z; voltage_v := Num 4.0;
       current_a := Num 0; temperature_c := Num 24.5 |};
    {| timestamp := 30; cell_id := Some 2%Z; voltage_v := Num 3.6;
       current_a := Num 3; temperature_c := Num 26 |};
    {| timestamp := 20; cell_id := Some 1%Z; voltage_v := Num 3.95;
       current_a := Num 1; temperature_c := Num 24.5 |};
    {| timestamp := 20; cell_id := Some 2%Z; voltage_v := Num 3.65;
       current_a := Num 2; temperature_c := Num 25.5 |} ].


Definition sample_metric : metric :=
  {| m_cell_id := 1; soc_percent := 50; soh_percent := 85;
     internal_resistance := 100; m_temperature_c := 25 |}.

(** ** Further vocabulary *)

(** The bounds every metric record of the pipeline satisfies: a state of
    charge that is a number lies between 0 and 100. *)
Definition in_bounds (m : metric) : Prop :=
  (forall soc, soc_percent m = Fin soc -> 0 <= soc <= 100) /\
  70 <= soh_percent m <= 100 /\
  0 <= internal_resistance m.

(** A file with an empty voltage cell and an empty temperature cell. *)
Definition missing_readings_file : list row :=
  [ {| timestamp := 0; cell_id := Some 1%Z; voltage_v := Text EmptyString;
       current_a := Num 1; temperature_c := Num 25 |};
    {| timestamp := 1; cell_id := Some 1%Z; voltage_v := Num 3.7;
       current_a := Num 0; temperature_c := Num 26 |};
    {| timestamp := 2; cell_id := Some 2%Z; voltage_v := Num 3.9;
       current_a := Num 1; temperature_c := Text "NA" |} ].

(** Two optional inputs that are both absent, or both present and in
    order. *)
Definition option_le (a b : option Q) : Prop :=
  match a, b with
  | Some x, Some y => x <= y
  | None, None => True
  | _, _ => False
  end.

(* ================================================================== *)
(** ** backend/models.py *)

Module models.

(** A row of the table [health_thresholds]; an unset bound is [None]. *)
Record HealthThreshold := {
  threshold_id : Z;
  metric_type : string;
  min_value : option Q;
  max_value : option Q;
  severity : string
}.

(** A [HealthMetric] object.  [metric_id] is assigned by the database when
    the object is inserted and is empty before. *)
Record HealthMetric := {
  metric_id : option Z;
  measurement_id : Z;
  cell_id : Z;
  soc_percent : float;
  soh_percent : Q;
  internal_resistance : Q;
  temperature_c : float;
  passes_threshold : bool
}.

End models.

(* ================================================================== *)
(** ** backend/upload_handler.py, [process_and_store_metrics] *)

Module Upload.

(** [{t.metric_type: (t.min_value, t.max_value) for t in thresholds}]: the
    rows are entered in the order of the query result, a later row
    replacing an earlier one of the same metric type. *)
Definition threshold_dict (thresholds : list models.HealthThreshold)
  : gmap string (option Q * option Q) :=
  fold_left
    (fun d t => <[models.metric_type t := (models.min_value t, models.max_value t)]> d)
    thresholds ∅.

(** The method up to the insert: [df] is the content of the file,
    [thresholds] the result of the query on [health_thresholds]; the value
    is the list [health_metrics] handed to the session.  The processor is
    the one [__init__] builds, with the default nominal capacity.  An
    exception of the processing leaves the method before the database is
    touched. *)
Definition process_and_store_metrics (df : list row)
    (thresholds : list models.HealthThreshold) (measurement_id : Z)
  : result (list models.HealthMetric) :=
  metrics_data ← BatteryHealthProcessor.process_measurement_file
                   BatteryHealthProcessor.default df;
  let threshold_dict := threshold_dict thresholds in
  OK (map (fun metric_data =>
             let passes := UploadHandler._check_thresholds metric_data threshold_dict in
             {| models.metric_id := None;
                models.measurement_id := measurement_id;
                models.cell_id := m_cell_id metric_data;
                models.soc_percent := soc_percent metric_data;
                models.soh_percent := soh_percent metric_data;
                models.internal_resistance := internal_resistance metric_data;
                models.temperature_c := m_temperature_c metric_data;
                models.passes_threshold := passes |})
          metrics_data).

End Upload.

(** The last row of metric type [k] in the result of the query. *)
Definition last_threshold (k : string) (thresholds : list models.HealthThreshold)
  : option models.HealthThreshold :=
  List.find (fun t => bool_decide (models.metric_type t = k)) (rev thresholds).

(** [m'] is at least as healthy as [m]: no lower state of health, no
    higher resistance, no higher temperature. *)
Definition at_least_as_healthy (m' m : metric) : Prop :=
  soh_percent m <= soh_percent m' /\
  internal_resistance m' <= internal_resistance m /\
  float_le (m_temperature_c m') (m_temperature_c m).

(** Threshold rows: a vacuous state-of-health bound, a resistance bound,
    and a second resistance row that replaces the first. *)
Definition sample_thresholds : list models.HealthThreshold :=
  [ {| models.threshold_id := 1; models.metric_type := "soh";
       models.min_value := Some 60; models.max_value := None;
       models.severity := "warning" |};
    {| models.threshold_id := 2; models.metric_type := "resistance";
       models.min_value := None; models.max_value := Some 100;
       models.severity := "critical" |};
    {| models.threshold_id := 3; models.metric_type := "resistance";
       models.min_value := None; models.max_value := Some 40;
       models.severity := "warning" |} ].

(* ================================================================== *)
(** ** frontend/charts.py *)

Module BatteryCharts.

(** [l * k] on a list. *)
Definition list_repeat {A} (l : list A) (k : nat) : list A := concat (repeat l k).

(** The [fill_color] argument that [create_metrics_summary_table] builds
    for a list of [n] metrics.  With no metric the data frame has no
    column and [df['cell_id']], evaluated before, raises.  The slice
    [[:n]] is taken of the list that holds the list of colours, not of the
    colours. *)
Definition fill_color (n : nat) : result (list (list string)) :=
  if (n =? 0)%nat then Raise KeyError
  else OK (firstn n [list_repeat ["white"; "lightgray"]%string (n / 2 + 1)]).

End BatteryCharts.
(* ================================================================== *)
(** * Results and exceptions *)

Lemma OK_inj {A} (a b : A) : OK a = OK b -> a = b.
Proof. congruence. Qed.

Lemma Fin_inj (a b : Q) : Fin a = Fin b -> a = b.
Proof. congruence. Qed.

Lemma OK_not_raises {A} (a : A) : ~ raises (OK a).
Proof. intros [e He]. discriminate. Qed.

Lemma Raise_raises {A} (e : exn) : raises (@Raise A e).
Proof. now exists e. Qed.

Create HintDb result discriminated.
#[global] Hint Resolve Raise_raises : result.
#[global] Hint Extern 1 (~ raises (OK _)) => apply OK_not_raises : result.

(* ================================================================== *)
(** * State of charge *)

Module SocProofs.
Import BatteryHealthProcessor.

(** The literal is written in ascending order already. *)
Lemma table_is_sorted :
  voltages = map fst VOLTAGE_SOC_TABLE /\ socs = map snd VOLTAGE_SOC_TABLE.
Proof. split; reflexivity. Qed.

Lemma segments_are_the_ends :
  hd_error (adjacent VOLTAGE_SOC_TABLE) = Some first_segment /\
  last (adjacent VOLTAGE_SOC_TABLE) first_segment = last_segment.
Proof. split; reflexivity. Qed.

(** Replace the inverse of a constant by its value, for [lra]. *)
Ltac fold_inverses :=
  unfold Qdiv in *;
  repeat match goal with
  | |- context [ / ?c ] =>
      let r := eval vm_compute in (Qred (/ c)) in
      let E := fresh "E" in
      assert (E : / c == r) by (vm_compute; reflexivity);
      rewrite !E; clear E
  end.

Ltac pick tac := first [ solve [left; tac] | right; pick tac | solve [tac] ].

(** The interpolator, segment by segment.  The index that
    [searchsorted] returns is clipped, so the first line also serves
    every voltage below the table and the last line every voltage above
    it. *)
Lemma soc_interpolator_cases (v : Q) :
  (v <= 3.0 /\ soc_interpolator v == 20 * (v - 2.75)) \/
  (3.0 < v <= 3.3 /\ soc_interpolator v == 5 + (50 # 3) * (v - 3.0)) \/
  (3.3 < v <= 3.5 /\ soc_interpolator v == 10 + 50 * (v - 3.3)) \/
  (3.5 < v <= 3.6 /\ soc_interpolator v == 20 + 100 * (v - 3.5)) \/
  (3.6 < v <= 3.65 /\ soc_interpolator v == 30 + 200 * (v - 3.6)) \/
  (3.65 < v <= 3.7 /\ soc_interpolator v == 40 + 200 * (v - 3.65)) \/
  (3.7 < v <= 3.75 /\ soc_interpolator v == 50 + 200 * (v - 3.7)) \/
  (3.75 < v <= 3.8 /\ soc_interpolator v == 60 + 200 * (v - 3.75)) \/
  (3.8 < v <= 3.9 /\ soc_interpolator v == 70 + 100 * (v - 3.8)) \/
  (3.9 < v <= 4.0 /\ soc_interpolator v == 80 + 100 * (v - 3.9)) \/
  (4.0 < v <= 4.1 /\ soc_interpolator v == 90 + 50 * (v - 4.0)) \/
  (4.1 < v /\ soc_interpolator v == 95 + 50 * (v - 4.1)).
Proof.
  unfold soc_interpolator, _build_soc_interpolator, scipy.interp1d.
  rewrite (proj1 table_is_sorted), (proj2 table_is_sorted).
  cbn [map fst snd VOLTAGE_SOC_TABLE length np.searchsorted].
  repeat (destruct (Qlt_le_dec _ v));
    cbn [Nat.min Nat.max Nat.sub nth];
    pick ltac:(split; [lra | fold_inverses; ring]).
Qed.

Ltac soc_cases v :=
  unfold estimate_soc, np.clip, np.maximum, np.minimum;
  let H := fresh "Hpos" in
  let E := fresh "Eint" in
  destruct (soc_interpolator_cases v)
    as [[H E]|[[H E]|[[H E]|[[H E]|[[H E]|[[H E]|[[H E]|[[H E]|[[H E]|[[H E]|[[H E]|[H E]]]]]]]]]]]];
  repeat (destruct (Qlt_le_dec _ _)).

Lemma estimate_soc_range (v : Q) : 0 <= estimate_soc v <= 100.
Proof. soc_cases v; lra. Qed.

Lemma estimate_soc_segment (v : Q) (p0 p1 : Q * Q) :
  In (p0, p1) (adjacent VOLTAGE_SOC_TABLE) ->
  fst p0 <= v <= fst p1 ->
  estimate_soc v == lerp p0 p1 v.
Proof.
  intros Hin [Hlo Hhi].
  cbn [adjacent VOLTAGE_SOC_TABLE tl combine In] in Hin.
  repeat (destruct Hin as [Hin | Hin];
          [injection Hin as <- <-; unfold lerp; cbn [fst snd] in *;
           fold_inverses; soc_cases v; lra |]).
  contradiction.
Qed.

(** Close the goal with the [k]-th pair when [v] is at most the bound just
    compared, and go on otherwise. *)
Tactic Notation "bracket_at" integer(k) constr(c) constr(v) :=
  destruct (Qlt_le_dec c v);
  [| eexists _, _; split; [do k right; left; reflexivity | cbn; lra]].

Lemma estimate_soc_bracketed (v : Q) :
  2.75 <= v <= 4.2 ->
  exists p0 p1, In (p0, p1) (adjacent VOLTAGE_SOC_TABLE) /\ fst p0 <= v <= fst p1.
Proof.
  intros [Hlo Hhi].
  cbn [adjacent VOLTAGE_SOC_TABLE tl combine].
  bracket_at 0 3.0 v. bracket_at 1 3.3 v. bracket_at 2 3.5 v.
  bracket_at 3 3.6 v. bracket_at 4 3.65 v. bracket_at 5 3.7 v.
  bracket_at 6 3.75 v. bracket_at 7 3.8 v. bracket_at 8 3.9 v.
  bracket_at 9 4.0 v. bracket_at 10 4.1 v.
  eexists _, _; split; [do 11 right; left; reflexivity | cbn; lra].
Qed.

Lemma estimate_soc_below (v : Q) :
  v < 2.75 ->
  estimate_soc v == np.clip (lerp (fst first_segment) (snd first_segment) v) 0 100
  /\ estimate_soc v == 0.
Proof.
  intros Hv.
  assert (L : lerp (fst first_segment) (snd first_segment) v == 20 * (v - 2.75))
    by (unfold lerp, first_segment; cbn [fst snd]; fold_inverses; ring).
  split; soc_cases v; lra.
Qed.

Lemma estimate_soc_above (v : Q) :
  4.2 < v ->
  estimate_soc v == np.clip (lerp (fst last_segment) (snd last_segment) v) 0 100
  /\ estimate_soc v == 100.
Proof.
  intros Hv.
  assert (L : lerp (fst last_segment) (snd last_segment) v == 95 + 50 * (v - 4.1))
    by (unfold lerp, last_segment; cbn [fst snd]; fold_inverses; ring).
  split; soc_cases v; lra.
Qed.

(** C1.  [estimate_soc] is a total function whose value is always
    between 0 and 100; on the calibration range [2.75, 4.2] every
    voltage is bracketed by two consecutive table points and the value
    is their linear interpolation; below 2.75 and above 4.2 it is the
    first, respectively last, segment's line clamped to [0, 100] (which
    is 0, respectively 100); and [estimate_soc 3.7 = 50],
    [estimate_soc 2.0 = 0], [estimate_soc 5.0 = 100]. *)
Theorem estimate_soc_interpolates_and_clamps :
  (forall v, 0 <= estimate_soc v <= 100) /\
  (forall v, 2.75 <= v <= 4.2 ->
     exists p0 p1, In (p0, p1) (adjacent VOLTAGE_SOC_TABLE) /\
                   fst p0 <= v <= fst p1) /\
  (forall v p0 p1, In (p0, p1) (adjacent VOLTAGE_SOC_TABLE) ->
     fst p0 <= v <= fst p1 -> estimate_soc v == lerp p0 p1 v) /\
  (forall v, v < 2.75 ->
     estimate_soc v
     == np.clip (lerp (fst first_segment) (snd first_segment) v) 0 100) /\
  (forall v, 4.2 < v ->
     estimate_soc v
     == np.clip (lerp (fst last_segment) (snd last_segment) v) 0 100) /\
  estimate_soc 3.7 == 50 /\ estimate_soc 2.0 == 0 /\ estimate_soc 5.0 == 100.
Proof.
  split; [exact estimate_soc_range |].
  split; [exact estimate_soc_bracketed |].
  split; [exact estimate_soc_segment |].
  split; [intros v Hv; apply (estimate_soc_below v Hv) |].
  split; [intros v Hv; apply (estimate_soc_above v Hv) |].
  repeat split; reflexivity.
Qed.

Lemma estimate_soc_interpolates_and_clamps_witness :
  estimate_soc 3.72 == lerp (3.7, 50) (3.75, 60) 3.72 /\
  estimate_soc 3.72 == 54.
Proof.
  split.
  - apply (proj1 (proj2 (proj2 estimate_soc_interpolates_and_clamps))).
    + cbn. do 6 right. left. reflexivity.
    + cbn. split; discriminate.
  - reflexivity.
Defined.

(** C2.  On the calibration range the estimate does not decrease when
    the voltage increases. *)
Theorem estimate_soc_monotone (v1 v2 : Q) :
  2.75 <= v1 -> v1 <= v2 -> v2 <= 4.2 ->
  estimate_soc v1 <= estimate_soc v2.
Proof.
  intros H1 H12 H2.
  unfold estimate_soc, np.clip, np.maximum, np.minimum.
  destruct (soc_interpolator_cases v1)
    as [[P1 E1]|[[P1 E1]|[[P1 E1]|[[P1 E1]|[[P1 E1]|[[P1 E1]|[[P1 E1]|[[P1 E1]|[[P1 E1]|[[P1 E1]|[[P1 E1]|[P1 E1]]]]]]]]]]]];
  destruct (soc_interpolator_cases v2)
    as [[P2 E2]|[[P2 E2]|[[P2 E2]|[[P2 E2]|[[P2 E2]|[[P2 E2]|[[P2 E2]|[[P2 E2]|[[P2 E2]|[[P2 E2]|[[P2 E2]|[P2 E2]]]]]]]]]]]];
  try (exfalso; lra);
  repeat (destruct (Qlt_le_dec _ _)); lra.
Qed.

Lemma estimate_soc_monotone_witness : estimate_soc 3.0 <= estimate_soc 3.72.
Proof.
  apply (estimate_soc_monotone 3.0 3.72); discriminate.
Defined.

End SocProofs.

(* ================================================================== *)
(** * Sums over samples *)

Section Sums.

Context {A : Type}.
Implicit Types (f g : A -> Q) (l : list A).

Lemma sumf_cons f (a : A) l : sumf f (a :: l) = f a + sumf f l.
Proof. reflexivity. Qed.

Lemma sumf_nil f : sumf f [] = 0.
Proof. reflexivity. Qed.

Lemma sumf_ext f g l :
  (forall a, In a l -> f a == g a) -> sumf f l == sumf g l.
Proof.
  induction l as [| a l IH]; intros H.
  - reflexivity.
  - rewrite !sumf_cons, (H a (or_introl eq_refl)), IH; [reflexivity |].
    intros b Hb. apply H. now right.
Qed.

Lemma sumf_perm f l l' : Permutation l l' -> sumf f l == sumf f l'.
Proof.
  induction 1 as [| a l l' _ IH | a b l | l l' l'' _ IH1 _ IH2].
  - reflexivity.
  - rewrite !sumf_cons, IH. reflexivity.
  - rewrite !sumf_cons. ring.
  - now rewrite IH1.
Qed.

Lemma sumf_sq_nonneg f l : 0 <= sumf (fun a => f a * f a) l.
Proof.
  induction l as [| a l IH].
  - rewrite sumf_nil. lra.
  - rewrite sumf_cons. nra.
Qed.

Lemma sumf_constant f g (c : Q) l :
  (forall a, In a l -> f a == c * g a) -> sumf f l == c * sumf g l.
Proof.
  induction l as [| a l IH]; intros H.
  - rewrite !sumf_nil. ring.
  - rewrite !sumf_cons, (H a (or_introl eq_refl)), IH; [ring |].
    intros b Hb. apply H. now right.
Qed.

Lemma inject_length_cons (a : A) l :
  inject_Z (Z.of_nat (length (a :: l))) == inject_Z (Z.of_nat (length l)) + 1.
Proof.
  cbn [length]. rewrite Nat2Z.inj_succ, <- Z.add_1_r, inject_Z_plus. reflexivity.
Qed.

Lemma inject_length_pos l :
  (1 <= length l)%nat -> 0 < inject_Z (Z.of_nat (length l)).
Proof.
  intros H. change 0 with (inject_Z 0). rewrite <- Zlt_Qlt. lia.
Qed.

Lemma sumf_one l : sumf (fun _ => 1) l == inject_Z (Z.of_nat (length l)).
Proof.
  induction l as [| a l IH].
  - reflexivity.
  - rewrite sumf_cons, IH, inject_length_cons. ring.
Qed.

End Sums.

(* ================================================================== *)
(** * Least squares *)

Lemma sse_expand (pts : list (Q * Q)) (m b : Q) :
  sse pts m b ==
    sumf (fun p => snd p * snd p) pts
    - 2 * m * sumf (fun p => fst p * snd p) pts
    - 2 * b * sumf snd pts
    + m * m * sumf (fun p => fst p * fst p) pts
    + 2 * m * b * sumf fst pts
    + inject_Z (Z.of_nat (length pts)) * (b * b).
Proof.
  unfold sse.
  induction pts as [| p l IH].
  - rewrite !sumf_nil. cbn. ring.
  - rewrite !sumf_cons, IH, inject_length_cons. ring.
Qed.

(** The quadratic form left when two lines are compared. *)
Lemma gap_expand (pts : list (Q * Q)) (dm db : Q) :
  sumf (fun p => (dm * fst p + db) * (dm * fst p + db)) pts ==
    dm * dm * sumf (fun p => fst p * fst p) pts
    + 2 * dm * db * sumf fst pts
    + inject_Z (Z.of_nat (length pts)) * (db * db).
Proof.
  induction pts as [| p l IH].
  - rewrite !sumf_nil. cbn. ring.
  - rewrite !sumf_cons, IH, inject_length_cons. ring.
Qed.

(** A line that satisfies the two normal equations is a least-squares fit. *)
Section NormalEquations.

Variable pts : list (Q * Q).
Variables m b : Q.

Hypothesis NE1 :
  sumf snd pts == m * sumf fst pts + inject_Z (Z.of_nat (length pts)) * b.
Hypothesis NE2 :
  sumf (fun p => fst p * snd p) pts
  == m * sumf (fun p => fst p * fst p) pts + b * sumf fst pts.

Lemma normal_equations_minimise : is_ols_fit pts m b.
Proof using NE1 NE2.
  intros m' b'.
  pose proof (sumf_sq_nonneg (fun p => (m' - m) * fst p + (b' - b)) pts) as Hpos.
  rewrite gap_expand in Hpos.
  rewrite !sse_expand.
  revert NE1 NE2 Hpos.
  generalize (inject_Z (Z.of_nat (length pts))) (sumf fst pts) (sumf snd pts)
    (sumf (fun p => fst p * fst p) pts) (sumf (fun p => fst p * snd p) pts)
    (sumf (fun p => snd p * snd p) pts).
  intros n Sx Sy Sxx Sxy Syy NE1 NE2 Hpos.
  assert (E : Syy - 2 * m' * Sxy - 2 * b' * Sy + m' * m' * Sxx
              + 2 * m' * b' * Sx + n * (b' * b')
              - (Syy - 2 * m * Sxy - 2 * b * Sy + m * m * Sxx
                 + 2 * m * b * Sx + n * (b * b))
              == (m' - m) * (m' - m) * Sxx + 2 * (m' - m) * (b' - b) * Sx
                 + n * ((b' - b) * (b' - b))
                 - 2 * (m' - m) * (Sxy - (m * Sxx + b * Sx))
                 - 2 * (b' - b) * (Sy - (m * Sx + n * b))) by ring.
  rewrite <- NE1, <- NE2 in E.
  lra.
Qed.

End NormalEquations.

Lemma sq_nonneg (x : Q) : 0 <= x * x.
Proof. nra. Qed.

Lemma sq_pos (x : Q) : ~ x == 0 -> 0 < x * x.
Proof.
  intros H. destruct (Qlt_le_dec 0 x) as [L | L].
  - now apply Qmult_lt_0_compat.
  - assert (L' : 0 < - x).
    { destruct (Qlt_le_dec x 0) as [L' | L']; [lra |]. exfalso. apply H. lra. }
    assert (E : x * x == (- x) * (- x)) by ring.
    rewrite E. now apply Qmult_lt_0_compat.
Qed.

Lemma sumf_sq_zero {A} (f : A -> Q) (l : list A) :
  sumf (fun a => f a * f a) l == 0 -> forall a, In a l -> f a == 0.
Proof.
  induction l as [| x l IH]; intros H a Ha.
  - destruct Ha.
  - rewrite sumf_cons in H.
    pose proof (sumf_sq_nonneg f l) as Hl.
    assert (Hx : f x * f x == 0) by nra.
    assert (Hr : sumf (fun a => f a * f a) l == 0) by nra.
    destruct Ha as [<- | Ha].
    + destruct (Qeq_dec (f x) 0) as [E | E]; [exact E |].
      exfalso. apply E. nra.
    + now apply IH.
Qed.

Lemma shifted_squares (pts : list (Q * Q)) (k s : Q) :
  sumf (fun p => (k * fst p - s) * (k * fst p - s)) pts
  == k * k * sumf (fun p => fst p * fst p) pts
     - 2 * k * s * sumf fst pts
     + inject_Z (Z.of_nat (length pts)) * (s * s).
Proof.
  induction pts as [| p l IH].
  - rewrite !sumf_nil. cbn. ring.
  - rewrite !sumf_cons, IH, inject_length_cons. ring.
Qed.

Lemma gram_as_squares (pts : list (Q * Q)) :
  sumf (fun p => (inject_Z (Z.of_nat (length pts)) * fst p - sumf fst pts)
                 * (inject_Z (Z.of_nat (length pts)) * fst p - sumf fst pts)) pts
  == inject_Z (Z.of_nat (length pts)) * gram pts.
Proof. rewrite shifted_squares. unfold gram. ring. Qed.

Lemma gram_nonneg (pts : list (Q * Q)) : 0 <= gram pts.
Proof.
  destruct pts as [| p l].
  - unfold gram. rewrite !sumf_nil. cbn. lra.
  - pose proof (gram_as_squares (p :: l)) as G.
    pose proof (sumf_sq_nonneg
      (fun q => inject_Z (Z.of_nat (length (p :: l))) * fst q - sumf fst (p :: l)) (p :: l)) as Hs.
    cbv beta in Hs. rewrite G in Hs.
    pose proof (inject_length_pos (p :: l)) as Hn.
    assert (0 < inject_Z (Z.of_nat (length (p :: l)))) as Hn' by (apply Hn; cbn; lia).
    nra.
Qed.

(** When the determinant vanishes all abscissas coincide. *)
Lemma gram_zero_constant (pts : list (Q * Q)) :
  gram pts == 0 -> forall p q, In p pts -> In q pts -> fst p == fst q.
Proof.
  intros G p q Hp Hq.
  assert (Hn : 0 < inject_Z (Z.of_nat (length pts))).
  { apply inject_length_pos. destruct pts; [destruct Hp | cbn; lia]. }
  pose proof (gram_as_squares pts) as E. rewrite G in E.
  assert (E0 : sumf (fun p => (inject_Z (Z.of_nat (length pts)) * fst p - sumf fst pts)
                 * (inject_Z (Z.of_nat (length pts)) * fst p - sumf fst pts)) pts == 0)
    by (rewrite E; ring).
  pose proof (sumf_sq_zero _ _ E0 p Hp) as Ep.
  pose proof (sumf_sq_zero _ _ E0 q Hq) as Eq.
  cbv beta in Ep, Eq. nra.
Qed.

Lemma combine_fst_snd {A B} (l : list (A * B)) :
  combine (map fst l) (map snd l) = l.
Proof.
  induction l as [| [a b] l IH]; [reflexivity |].
  cbn [map combine fst snd]. now rewrite IH.
Qed.

Lemma combine_diag {A} (l : list A) :
  combine l l = map (fun a => (a, a)) l.
Proof.
  induction l as [| a l IH]; [reflexivity |].
  cbn [map combine]. now rewrite IH.
Qed.

Lemma dot_points (pts : list (Q * Q)) :
  np.dot (map fst pts) (map snd pts) = sumf (fun p => fst p * snd p) pts.
Proof. unfold np.dot. now rewrite combine_fst_snd. Qed.

Lemma dot_self (pts : list (Q * Q)) :
  np.dot (map fst pts) (map fst pts) = sumf (fun p => fst p * fst p) pts.
Proof.
  unfold np.dot, sumf.
  rewrite combine_diag, !map_map. reflexivity.
Qed.

(** The normal equations at the line [polyfit] returns. *)
Lemma polyfit1_f_normal (pts : list (Q * Q)) :
  (1 <= length pts)%nat ->
  (forall p, In p pts -> ~ fst p == 0) ->
  let m := fst (np.polyfit1_f (map fst pts) (map snd pts)) in
  let b := snd (np.polyfit1_f (map fst pts) (map snd pts)) in
  sumf snd pts == m * sumf fst pts + inject_Z (Z.of_nat (length pts)) * b /\
  sumf (fun p => fst p * snd p) pts
    == m * sumf (fun p => fst p * fst p) pts + b * sumf fst pts.
Proof.
  intros Hlen Hnz.
  pose proof (inject_length_pos pts Hlen) as Hn.
  unfold np.polyfit1_f.
  rewrite dot_points, dot_self, length_map.
  fold (sumf fst pts). fold (sumf snd pts). fold (gram pts).
  set (n := inject_Z (Z.of_nat (length pts))) in *.
  destruct (Qeq_bool (gram pts) 0) eqn:HD; cbn [fst snd].
  - apply Qeq_bool_iff in HD.
    destruct pts as [| p0 l]; [cbn in Hlen; lia |].
    cbn [map hd].
    set (pts := p0 :: l) in *.
    assert (Hc : forall p, In p pts -> fst p == fst p0).
    { intros p Hp. apply (gram_zero_constant pts HD); [exact Hp | now left]. }
    assert (Ha : ~ fst p0 == 0) by (apply Hnz; now left).
    assert (Ex : sumf fst pts == fst p0 * n).
    { unfold n. rewrite <- sumf_one. apply sumf_constant.
      intros p Hp. rewrite (Hc p Hp). ring. }
    assert (Exx : sumf (fun p => fst p * fst p) pts == fst p0 * sumf fst pts).
    { apply sumf_constant. intros p Hp. rewrite (Hc p Hp). reflexivity. }
    assert (Exy : sumf (fun p => fst p * snd p) pts == fst p0 * sumf snd pts).
    { apply sumf_constant. intros p Hp. rewrite (Hc p Hp). reflexivity. }
    rewrite Exy, Exx, Ex.
    split; field; (split; [lra | exact Ha]).
  - assert (HD' : ~ gram pts == 0).
    { intros E. apply Qeq_bool_iff in E. congruence. }
    unfold gram in *. fold n in HD' |- *.
    split; field; try split; try lra; exact HD'.
Qed.

Lemma polyfit1_f_is_ols_fit (pts : list (Q * Q)) :
  (1 <= length pts)%nat ->
  (forall p, In p pts -> ~ fst p == 0) ->
  is_ols_fit pts (fst (np.polyfit1_f (map fst pts) (map snd pts)))
                 (snd (np.polyfit1_f (map fst pts) (map snd pts))).
Proof.
  intros Hlen Hnz.
  destruct (polyfit1_f_normal pts Hlen Hnz) as [NE1 NE2].
  now apply normal_equations_minimise.
Qed.

(** With two distinct abscissas the least-squares slope is unique. *)
Lemma ols_slope_unique (pts : list (Q * Q)) (m b : Q) :
  ~ gram pts == 0 ->
  is_ols_fit pts m b ->
  m == ols_slope pts.
Proof.
  intros HD Hfit.
  assert (Hlen : (1 <= length pts)%nat).
  { destruct pts; [| cbn; lia]. exfalso. apply HD. reflexivity. }
  pose proof (inject_length_pos pts Hlen) as Hn.
  pose proof (gram_nonneg pts) as HD0.
  set (m0 := ols_slope pts).
  set (b0 := (sumf snd pts - m0 * sumf fst pts) / inject_Z (Z.of_nat (length pts))).
  specialize (Hfit m0 b0).
  rewrite !sse_expand in Hfit.
  pose proof (sumf_sq_nonneg (fun p => (m - m0) * fst p + (b - b0)) pts) as Hpos.
  rewrite gap_expand in Hpos.
  assert (NE1 : sumf snd pts == m0 * sumf fst pts + inject_Z (Z.of_nat (length pts)) * b0).
  { unfold b0. field. lra. }
  assert (NE2 : sumf (fun p => fst p * snd p) pts
                == m0 * sumf (fun p => fst p * fst p) pts + b0 * sumf fst pts).
  { unfold b0, m0, ols_slope, gram in *. field. split; first [exact HD | lra]. }
  unfold gram in HD, HD0.
  set (n := inject_Z (Z.of_nat (length pts))) in *.
  set (Sx := sumf fst pts) in *.
  set (Sy := sumf snd pts) in *.
  set (Sxx := sumf (fun p => fst p * fst p) pts) in *.
  set (Sxy := sumf (fun p => fst p * snd p) pts) in *.
  set (Syy := sumf (fun p => snd p * snd p) pts) in *.
  clearbody m0 b0 n Sx Sy Sxx Sxy Syy.
  set (dm := m - m0) in *. set (db := b - b0) in *.
  assert (A0 : dm * dm * Sxx + 2 * dm * db * Sx + n * (db * db) <= 0).
  { assert (E : Syy - 2 * m * Sxy - 2 * b * Sy + m * m * Sxx + 2 * m * b * Sx + n * (b * b)
            - (Syy - 2 * m0 * Sxy - 2 * b0 * Sy + m0 * m0 * Sxx + 2 * m0 * b0 * Sx + n * (b0 * b0))
            == dm * dm * Sxx + 2 * dm * db * Sx + n * (db * db)
               - 2 * dm * (Sxy - (m0 * Sxx + b0 * Sx))
               - 2 * db * (Sy - (m0 * Sx + n * b0))) by (unfold dm, db; ring).
    rewrite <- NE1, <- NE2 in E. lra. }
  assert (A1 : n * (dm * dm * Sxx + 2 * dm * db * Sx + n * (db * db))
               == (n * db + dm * Sx) * (n * db + dm * Sx) + dm * dm * (n * Sxx - Sx * Sx)) by ring.
  assert (HDpos : 0 < n * Sxx - Sx * Sx).
  { destruct (Qlt_le_dec 0 (n * Sxx - Sx * Sx)) as [L | L]; [exact L |].
    exfalso. apply HD. lra. }
  assert (Hsq : dm * dm <= 0).
  { pose proof (sq_nonneg (n * db + dm * Sx)) as S1.
    pose proof (sq_nonneg dm) as S2.
    assert (S3 : 0 <= n * - (dm * dm * Sxx + 2 * dm * db * Sx + n * (db * db)))
      by (apply Qmult_le_0_compat; lra).
    assert (S4 : dm * dm * (n * Sxx - Sx * Sx) <= 0) by lra.
    destruct (Qlt_le_dec 0 (dm * dm)) as [L | L]; [| exact L].
    exfalso.
    assert (0 < dm * dm * (n * Sxx - Sx * Sx)) by (apply Qmult_lt_0_compat; assumption).
    lra. }
  assert (Hdm : dm == 0).
  { destruct (Qeq_dec dm 0) as [E | E]; [exact E |].
    exfalso. pose proof (sq_pos dm E). lra. }
  unfold dm in Hdm. lra.
Qed.

Lemma polyfit1_f_slope_regular (pts : list (Q * Q)) :
  ~ gram pts == 0 ->
  fst (np.polyfit1_f (map fst pts) (map snd pts)) == ols_slope pts.
Proof.
  intros HD.
  unfold np.polyfit1_f.
  rewrite dot_points, dot_self, length_map.
  fold (sumf fst pts). fold (sumf snd pts). fold (gram pts).
  destruct (Qeq_bool (gram pts) 0) eqn:E.
  - apply Qeq_bool_iff in E. contradiction.
  - cbn [fst]. reflexivity.
Qed.

Lemma distinct_gram (pts : list (Q * Q)) :
  (exists p q, In p pts /\ In q pts /\ ~ fst p == fst q) -> ~ gram pts == 0.
Proof.
  intros (p & q & Hp & Hq & Hne) G.
  apply Hne. now apply (gram_zero_constant pts G).
Qed.

(* ================================================================== *)
(** * Internal resistance *)

Module ResistanceProofs.
Import BatteryHealthProcessor.

Lemma count_true_mask (cs : list Q) :
  np.count_true (map np.nonzero cs) = length (List.filter np.nonzero cs).
Proof.
  unfold np.count_true.
  induction cs as [| c cs IH]; [reflexivity |].
  cbn [map List.filter]. destruct (np.nonzero c); cbn [id length]; now rewrite ?IH.
Qed.

Lemma usable_samples_currents (vs cs : list Q) :
  length vs = length cs ->
  map fst (usable_samples vs cs) = List.filter np.nonzero cs.
Proof.
  unfold usable_samples.
  revert vs. induction cs as [| c cs IH]; intros [| v vs] Hlen;
    try discriminate; [reflexivity |].
  cbn [combine List.filter]. unfold nonzero_current at 1. cbn [fst].
  fold (np.nonzero c). destruct (np.nonzero c); cbn [map fst]; rewrite IH; auto.
Qed.

Lemma select_currents (vs cs : list Q) :
  length vs = length cs ->
  np.select cs (map np.nonzero cs) = map fst (usable_samples vs cs).
Proof.
  intros Hlen. rewrite (usable_samples_currents vs cs Hlen).
  clear. induction cs as [| c cs IH]; [reflexivity |].
  cbn [map np.select List.filter]. destruct (np.nonzero c); now rewrite IH.
Qed.

Lemma select_voltages (vs cs : list Q) :
  length vs = length cs ->
  np.select vs (map np.nonzero cs) = map snd (usable_samples vs cs).
Proof.
  unfold usable_samples.
  revert vs. induction cs as [| c cs IH]; intros [| v vs] Hlen;
    try discriminate; [reflexivity |].
  cbn [map np.select combine List.filter]. unfold nonzero_current at 1. cbn [fst].
  fold (np.nonzero c). destruct (np.nonzero c); cbn [map snd]; rewrite IH; auto.
Qed.

Lemma usable_samples_nonzero (vs cs : list Q) (p : Q * Q) :
  In p (usable_samples vs cs) -> ~ fst p == 0.
Proof.
  unfold usable_samples. intros Hp E.
  apply filter_In in Hp as [_ Hp].
  unfold nonzero_current, np.nonzero in Hp. apply Qeq_bool_iff in E. now rewrite E in Hp.
Qed.

Lemma usable_samples_length (vs cs : list Q) :
  length vs = length cs ->
  length (usable_samples vs cs) = np.count_true (np.ne_zero (FloatArr cs)).
Proof.
  intros Hlen. cbn [np.ne_zero].
  rewrite count_true_mask, <- (usable_samples_currents vs cs Hlen).
  now rewrite length_map.
Qed.

(** The function on two float arrays, with the array plumbing removed. *)
Lemma calculate_internal_resistance_float (vs cs : list Q) :
  calculate_internal_resistance (FloatArr vs) (FloatArr cs) =
    if (length vs <? 2)%nat || (length cs <? 2)%nat then OK 0
    else if (length (List.filter np.nonzero cs) <? 2)%nat then OK 0
    else if Nat.eqb (length vs) (length cs) then
      OK (py_max 0 (- fst (np.polyfit1_f (np.select cs (map np.nonzero cs))
                                          (np.select vs (map np.nonzero cs))) * 1000))
    else Raise IndexError.
Proof.
  unfold calculate_internal_resistance. cbn [len np.ne_zero].
  destruct ((length vs <? 2)%nat || (length cs <? 2)%nat); [reflexivity |].
  rewrite count_true_mask.
  destruct (length (List.filter np.nonzero cs) <? 2)%nat; [reflexivity |].
  unfold np.index_mask. cbn [len]. rewrite length_map, Nat.eqb_refl.
  destruct (Nat.eqb (length vs) (length cs)); reflexivity.
Qed.

Lemma py_max_spec (a b : Q) :
  a <= py_max a b /\ b <= py_max a b /\ (py_max a b = a \/ py_max a b = b).
Proof. unfold py_max. destruct (Qlt_le_dec a b); repeat split; auto; lra. Qed.

Lemma resistance_short (voltage_data current_data : ndarray) :
  (len voltage_data < 2)%nat \/ (len current_data < 2)%nat ->
  calculate_internal_resistance voltage_data current_data = OK 0.
Proof.
  intros H. unfold calculate_internal_resistance.
  destruct (Nat.ltb_spec (len voltage_data) 2); [reflexivity |].
  destruct (Nat.ltb_spec (len current_data) 2); [reflexivity |]. lia.
Qed.

Lemma resistance_few_nonzero (vs cs : list Q) :
  (length (List.filter np.nonzero cs) < 2)%nat ->
  calculate_internal_resistance (FloatArr vs) (FloatArr cs) = OK 0.
Proof.
  intros H. rewrite calculate_internal_resistance_float.
  destruct ((length vs <? 2)%nat || (length cs <? 2)%nat); [reflexivity |].
  destruct (Nat.ltb_spec (length (List.filter np.nonzero cs)) 2); [reflexivity | lia].
Qed.

(** C3.  [calculate_internal_resistance] returns exactly 0 when either
    array has fewer than two entries, and when fewer than two currents are
    different from zero; so it does for the currents 0, 0, 0 with any three
    voltages. *)
Theorem calculate_internal_resistance_too_few :
  (forall voltage_data current_data : ndarray,
      (len voltage_data < 2)%nat \/ (len current_data < 2)%nat ->
      calculate_internal_resistance voltage_data current_data = OK 0) /\
  (forall vs cs : list Q,
      (length (List.filter np.nonzero cs) < 2)%nat ->
      calculate_internal_resistance (FloatArr vs) (FloatArr cs) = OK 0) /\
  (forall vs cs : list Q,
      length vs = length cs ->
      (length (usable_samples vs cs) < 2)%nat ->
      calculate_internal_resistance (FloatArr vs) (FloatArr cs) = OK 0) /\
  (forall vs : list Q,
      length vs = 3%nat ->
      calculate_internal_resistance (FloatArr vs) (FloatArr [0; 0; 0]) = OK 0).
Proof.
  split; [exact resistance_short |].
  split; [exact resistance_few_nonzero |].
  split.
  - intros vs cs Hlen H. apply resistance_few_nonzero.
    rewrite <- (usable_samples_currents vs cs Hlen), length_map. exact H.
  - intros vs Hlen. apply resistance_few_nonzero. vm_compute. lia.
Qed.

Lemma calculate_internal_resistance_too_few_witness :
  calculate_internal_resistance (FloatArr [3.7]) (FloatArr [1.5]) = OK 0 /\
  calculate_internal_resistance (FloatArr [3.7; 3.6; 3.5]) (FloatArr [0; 1.5; 0]) = OK 0 /\
  calculate_internal_resistance (FloatArr [3.7; 3.6; 3.5]) (FloatArr [0; 0; 0]) = OK 0.
Proof.
  split; [| split].
  - apply (proj1 calculate_internal_resistance_too_few). left. cbn. lia.
  - apply (proj1 (proj2 calculate_internal_resistance_too_few)). vm_compute. lia.
  - apply (proj2 (proj2 (proj2 calculate_internal_resistance_too_few))). reflexivity.
Defined.

Lemma py_max_is_max (a b : Q) : py_max a b == Qmax a b.
Proof.
  unfold py_max. destruct (Qlt_le_dec a b) as [L | L].
  - symmetry. apply Q.max_r. lra.
  - symmetry. apply Q.max_l. exact L.
Qed.

Lemma usable_samples_fit (vs cs : list Q) :
  length vs = length cs ->
  (2 <= length (usable_samples vs cs))%nat ->
  calculate_internal_resistance (FloatArr vs) (FloatArr cs)
  = OK (py_max 0 (- fst (np.polyfit1_f (map fst (usable_samples vs cs))
                                        (map snd (usable_samples vs cs))) * 1000)).
Proof.
  intros Hlen Hn.
  rewrite calculate_internal_resistance_float.
  pose proof (usable_samples_currents vs cs Hlen) as Hc.
  assert (Hn' : (2 <= length (List.filter np.nonzero cs))%nat)
    by (rewrite <- Hc, length_map; exact Hn).
  pose proof (filter_length_le np.nonzero cs) as Hle.
  destruct (Nat.ltb_spec (length vs) 2); [lia |].
  destruct (Nat.ltb_spec (length cs) 2); [lia |].
  cbn [orb].
  destruct (Nat.ltb_spec (length (List.filter np.nonzero cs)) 2); [lia |].
  rewrite Hlen, Nat.eqb_refl.
  now rewrite (select_currents vs cs Hlen), (select_voltages vs cs Hlen).
Qed.

(** C4.  With equally long inputs of which at least two samples have a
    non-zero current, the result is [max(0, -slope * 1000)] for a
    least-squares line [voltage = slope * current + intercept] through
    those samples; it is never negative; when two of the samples differ in
    current that slope is the only least-squares slope and is the textbook
    one.  For voltages 4.0, 3.95, 3.9, 3.85 and currents 0, 1, 2, 3 the
    result is 50, strictly between 0 and 200. *)
Theorem calculate_internal_resistance_is_floored_ols :
  (forall vs cs : list Q,
      length vs = length cs ->
      (2 <= length (usable_samples vs cs))%nat ->
      exists slope intercept r,
        calculate_internal_resistance (FloatArr vs) (FloatArr cs) = OK r /\
        r == Qmax 0 (- slope * 1000) /\
        0 <= r /\
        is_ols_fit (usable_samples vs cs) slope intercept /\
        ((exists p q, In p (usable_samples vs cs) /\ In q (usable_samples vs cs) /\
                      ~ fst p == fst q) ->
         slope == ols_slope (usable_samples vs cs) /\
         forall m b, is_ols_fit (usable_samples vs cs) m b -> m == slope)) /\
  (exists r,
      calculate_internal_resistance
        (FloatArr [4.0; 3.95; 3.9; 3.85]) (FloatArr [0; 1; 2; 3]) = OK r /\
      r == 50 /\ 0 < r /\ r < 200).
Proof.
  split.
  - intros vs cs Hlen Hn.
    set (us := usable_samples vs cs) in *.
    exists (fst (np.polyfit1_f (map fst us) (map snd us))),
           (snd (np.polyfit1_f (map fst us) (map snd us))),
           (py_max 0 (- fst (np.polyfit1_f (map fst us) (map snd us)) * 1000)).
    split; [now apply usable_samples_fit |].
    split; [apply py_max_is_max |].
    split; [apply py_max_spec |].
    split.
    + apply polyfit1_f_is_ols_fit; [lia |].
      intros p Hp. now apply (usable_samples_nonzero vs cs).
    + intros Hd. apply distinct_gram in Hd.
      pose proof (polyfit1_f_slope_regular us Hd) as Hs.
      split; [exact Hs |].
      intros m b Hfit. rewrite Hs. now apply (ols_slope_unique us m b).
  - eexists. split; [vm_compute; reflexivity |].
    repeat split.
Qed.

Lemma calculate_internal_resistance_is_floored_ols_witness :
  exists slope intercept r,
    calculate_internal_resistance
      (FloatArr [3.7; 3.6; 3.5]) (FloatArr [1; 2; 0]) = OK r /\
    r == Qmax 0 (- slope * 1000) /\
    0 <= r /\
    is_ols_fit (usable_samples [3.7; 3.6; 3.5] [1; 2; 0]) slope intercept /\
    ((exists p q, In p (usable_samples [3.7; 3.6; 3.5] [1; 2; 0]) /\
                  In q (usable_samples [3.7; 3.6; 3.5] [1; 2; 0]) /\
                  ~ fst p == fst q) ->
     slope == ols_slope (usable_samples [3.7; 3.6; 3.5] [1; 2; 0]) /\
     forall m b, is_ols_fit (usable_samples [3.7; 3.6; 3.5] [1; 2; 0]) m b -> m == slope).
Proof.
  apply (proj1 calculate_internal_resistance_is_floored_ols [3.7; 3.6; 3.5] [1; 2; 0]).
  - reflexivity.
  - vm_compute. lia.
Defined.

End ResistanceProofs.

(* ================================================================== *)
(** * State of health *)

Module SohProofs.
Import BatteryHealthProcessor.

Lemma clip_is_clamp (x lo hi : Q) : lo <= hi -> np.clip x lo hi == clamp x lo hi.
Proof.
  intros H. unfold np.clip, np.minimum, np.maximum, clamp.
  destruct (Qlt_le_dec x lo) as [L1 | L1];
    destruct (Qlt_le_dec hi _) as [L2 | L2].
  - lra.
  - rewrite (Q.min_r hi x) by lra. rewrite Q.max_l by lra. reflexivity.
  - rewrite (Q.min_l hi x) by lra. rewrite Q.max_r by lra. reflexivity.
  - rewrite (Q.min_r hi x) by lra. rewrite Q.max_r by lra. reflexivity.
Qed.

Lemma clip_range (x lo hi : Q) : lo <= hi -> lo <= np.clip x lo hi <= hi.
Proof.
  intros H. unfold np.clip, np.minimum, np.maximum.
  destruct (Qlt_le_dec x lo); destruct (Qlt_le_dec hi _); lra.
Qed.

#[global] Instance clip_proper : Proper (Qeq ==> Qeq ==> Qeq ==> Qeq) np.clip.
Proof.
  intros x x' Hx lo lo' Hlo hi hi' Hhi.
  unfold np.clip, np.minimum, np.maximum.
  repeat (destruct (Qlt_le_dec _ _)); lra.
Qed.

Lemma resistance_soh_is_factor (r : Q) : resistance_soh r == resistance_factor r.
Proof.
  unfold resistance_soh, resistance_factor, base_resistance, aged_resistance, lerp.
  destruct (Qle_bool r 50); [reflexivity |].
  destruct (Qle_bool 150 r); [reflexivity |].
  cbn [fst snd]. field.
Qed.

Lemma resistance_soh_range (r : Q) : 70 <= resistance_soh r <= 100.
Proof.
  unfold resistance_soh, base_resistance, aged_resistance.
  destruct (Qle_bool r 50) eqn:E1; [lra |].
  destruct (Qle_bool 150 r) eqn:E2; [lra |].
  assert (H1 : ~ r <= 50) by (rewrite <- Qle_bool_iff; congruence).
  assert (H2 : ~ 150 <= r) by (rewrite <- Qle_bool_iff; congruence).
  apply Qnot_le_lt in H1, H2.
  assert (E : 100 - 30 * (r - 50) / (150 - 50) == 100 - (3 # 10) * (r - 50)) by field.
  rewrite E. lra.
Qed.

Lemma cycle_soh_is_factor (cycles : Z) :
  py_max 70 (100 - (inject_Z cycles / 2000) * 20) == cycle_factor cycles.
Proof.
  unfold cycle_factor, py_max.
  destruct (Qlt_le_dec _ _) as [L | L].
  - symmetry. apply Q.max_r. lra.
  - symmetry. apply Q.max_l. exact L.
Qed.

Lemma mean_f_1 (a : Q) : np.mean_f [a] == a.
Proof. unfold np.mean_f. cbn. field. Qed.
Lemma mean_f_2 (a b : Q) : np.mean_f [a; b] == (a + b) / 2.
Proof. unfold np.mean_f. cbn. field. Qed.
Lemma mean_f_3 (a b c : Q) : np.mean_f [a; b; c] == (a + b + c) / 3.
Proof. unfold np.mean_f. cbn. field. Qed.

Lemma estimate_soh_refines (self : t) (cap res : option Q) (cycles : Z) :
  cap = None \/ ~ nominal_capacity_ah self == 0 ->
  exists s, estimate_soh self cap res cycles = OK s /\
            s == soh_spec (nominal_capacity_ah self) cap res cycles.
Proof.
  intros Hnom. unfold estimate_soh, soh_spec.
  assert (Hq : cap = None \/ Qeq_bool (nominal_capacity_ah self) 0 = false).
  { destruct Hnom as [-> | Hn]; [now left | right].
    destruct (Qeq_bool _ 0) eqn:E; [| reflexivity].
    apply Qeq_bool_iff in E. contradiction. }
  destruct cap as [c |]; [destruct Hq as [Hq | Hq]; [discriminate | rewrite Hq] |];
    destruct res as [r |]; destruct (0 <? cycles)%Z;
    cbn [mbind result_bind bind app option_map factor_value factor_count Z.add Z.eqb
         Pos.add Pos.succ];
    eexists; (split; [reflexivity |]);
    try reflexivity;
    repeat match goal with
           | |- context [ (?a + ?b + ?c)%Z ] =>
               let v := eval vm_compute in (a + b + c)%Z in
               change (a + b + c)%Z with v
           end;
    cbn [Z.eqb];
    rewrite <- clip_is_clamp by lra;
    apply clip_proper; try reflexivity;
    rewrite ?mean_f_1, ?mean_f_2, ?mean_f_3, ?resistance_soh_is_factor,
      ?cycle_soh_is_factor;
    unfold capacity_factor; field;
    intros E; apply Qeq_bool_iff in E; congruence.
Qed.

Lemma estimate_soh_shape (self : t) (cap res : option Q) (cycles : Z) (s : Q) :
  estimate_soh self cap res cycles = OK s ->
  s = 100 \/ exists x, s = np.clip x 0 100.
Proof.
  unfold estimate_soh.
  destruct cap as [c |]; [destruct (Qeq_bool _ 0); [discriminate |] |];
    destruct res as [r |]; destruct (0 <? cycles)%Z;
    cbn [mbind result_bind bind app];
    intros H; apply OK_inj in H; subst s;
    lazymatch goal with
    | |- 100 = 100 \/ _ => left; reflexivity
    | |- _ => right; eexists; reflexivity
    end.
Qed.

Lemma estimate_soh_range (self : t) (cap res : option Q) (cycles : Z) (s : Q) :
  estimate_soh self cap res cycles = OK s -> 0 <= s <= 100.
Proof.
  intros H. apply estimate_soh_shape in H as [-> | [x ->]].
  - lra.
  - apply clip_range. lra.
Qed.

(** The pipeline's call: only the resistance is passed. *)
Lemma estimate_soh_resistance_only (self : t) (r : Q) :
  estimate_soh self None (Some r) 0
  = OK (np.clip (np.mean_f [resistance_soh r]) 0 100).
Proof. reflexivity. Qed.

(** C5.  Unless the capacity is supplied together with a zero nominal
    capacity, [estimate_soh] returns the mean of the supplied factors
    clamped to [0, 100], and 100 when no factor is supplied; the factors
    are as specified.  With only a resistance of 50, 150 and 100 the
    results are 100, 70 and 85. *)
Theorem estimate_soh_is_clamped_mean :
  (forall (self : t) (cap res : option Q) (cycles : Z),
      cap = None \/ ~ nominal_capacity_ah self == 0 ->
      exists s, estimate_soh self cap res cycles = OK s /\
                s == soh_spec (nominal_capacity_ah self) cap res cycles /\
                0 <= s <= 100) /\
  (forall (self : t) (cycles : Z),
      (cycles <= 0)%Z -> estimate_soh self None None cycles = OK 100) /\
  (forall r, r <= 50 -> resistance_factor r == 100) /\
  (forall r, 150 <= r -> resistance_factor r == 70) /\
  (forall r, 50 <= r <= 150 ->
             resistance_factor r == 100 - 30 * (r - 50) / 100) /\
  (exists s, estimate_soh default None (Some 50) 0 = OK s /\ s == 100) /\
  (exists s, estimate_soh default None (Some 150) 0 = OK s /\ s == 70) /\
  (exists s, estimate_soh default None (Some 100) 0 = OK s /\ s == 85).
Proof.
  split.
  { intros self cap res cycles H.
    destruct (estimate_soh_refines self cap res cycles H) as (s & Hs & Es).
    exists s. split; [exact Hs |]. split; [exact Es |].
    exact (estimate_soh_range self cap res cycles s Hs). }
  split.
  { intros self cycles Hc. unfold estimate_soh.
    destruct (Z.ltb_spec 0 cycles); [lia | reflexivity]. }
  split.
  { intros r Hr. unfold resistance_factor.
    apply Qle_bool_iff in Hr. now rewrite Hr. }
  split.
  { intros r Hr. unfold resistance_factor.
    destruct (Qle_bool r 50) eqn:E; [apply Qle_bool_iff in E; lra |].
    apply Qle_bool_iff in Hr. now rewrite Hr. }
  split.
  { intros r [H1 H2]. unfold resistance_factor, lerp. cbn [fst snd].
    destruct (Qle_bool r 50) eqn:E1.
    - apply Qle_bool_iff in E1.
      assert (E : r == 50) by lra. rewrite E. reflexivity.
    - destruct (Qle_bool 150 r) eqn:E2.
      + apply Qle_bool_iff in E2.
        assert (E : r == 150) by lra. rewrite E. reflexivity.
      + field. }
  repeat split; eexists; (split; [reflexivity |]); reflexivity.
Qed.

Lemma estimate_soh_is_clamped_mean_witness :
  exists s, estimate_soh default (Some 45) (Some 100) 1000 = OK s /\
            s == soh_spec 50 (Some 45) (Some 100) 1000 /\
            0 <= s <= 100.
Proof.
  apply (proj1 estimate_soh_is_clamped_mean default (Some 45) (Some 100) 1000%Z).
  right. cbn. discriminate.
Defined.

End SohProofs.

(* ================================================================== *)
(** * Threshold evaluation *)

Module ThresholdProofs.
Import UploadHandler.

Lemma float_leb_iff (x y : float) : float_leb x y = true <-> float_le x y.
Proof.
  destruct x as [a |], y as [b |]; cbn [float_leb float_le];
    try (split; [discriminate | contradiction]).
  apply Qle_bool_iff.
Qed.

Lemma check_thresholds_checks (m : metric) (t : gmap string (option Q * option Q)) :
  _check_thresholds m t = soh_check m t && resistance_check m t && temperature_check m t.
Proof.
  unfold _check_thresholds, soh_check, resistance_check, temperature_check, all.
  destruct (t !! "soh"%string) as [[[mn |] ?] |];
    destruct (t !! "resistance"%string) as [[? [mx |]] |];
    destruct (t !! "temperature"%string) as [[? [mx' |]] |];
    cbn [app forallb id andb];
    repeat match goal with |- context [Qle_bool ?a ?b] => destruct (Qle_bool a b) end;
    repeat match goal with |- context [float_leb ?a ?b] => destruct (float_leb a b) end;
    reflexivity.
Qed.

Lemma soh_check_true (m : metric) (t : gmap string (option Q * option Q)) :
  soh_check m t = true <->
  forall min_value max_value,
    t !! "soh"%string = Some (Some min_value, max_value) ->
    min_value <= soh_percent m.
Proof.
  unfold soh_check.
  destruct (t !! "soh"%string) as [[[mn |] mx] |].
  - rewrite Qle_bool_iff. split.
    + intros H ? ? E. now simplify_eq.
    + intros H. now apply (H mn mx).
  - split; [intros _ ? ? E; discriminate | reflexivity].
  - split; [intros _ ? ? E; discriminate | reflexivity].
Qed.

Lemma resistance_check_true (m : metric) (t : gmap string (option Q * option Q)) :
  resistance_check m t = true <->
  forall min_value max_value,
    t !! "resistance"%string = Some (min_value, Some max_value) ->
    internal_resistance m <= max_value.
Proof.
  unfold resistance_check.
  destruct (t !! "resistance"%string) as [[mn [mx |]] |].
  - rewrite Qle_bool_iff. split.
    + intros H ? ? E. now simplify_eq.
    + intros H. now apply (H mn mx).
  - split; [intros _ ? ? E; discriminate | reflexivity].
  - split; [intros _ ? ? E; discriminate | reflexivity].
Qed.

Lemma temperature_check_true (m : metric) (t : gmap string (option Q * option Q)) :
  temperature_check m t = true <->
  forall min_value max_value,
    t !! "temperature"%string = Some (min_value, Some max_value) ->
    float_le (m_temperature_c m) (Fin max_value).
Proof.
  unfold temperature_check.
  destruct (t !! "temperature"%string) as [[mn [mx |]] |].
  - rewrite float_leb_iff. split.
    + intros H ? ? E. now simplify_eq.
    + intros H. now apply (H mn mx).
  - split; [intros _ ? ? E; discriminate | reflexivity].
  - split; [intros _ ? ? E; discriminate | reflexivity].
Qed.

(** C7.  The threshold evaluation is the conjunction of exactly the
    checks that apply: state of health at least the minimum of a "soh"
    entry, resistance at most the maximum of a "resistance" entry,
    temperature at most the maximum of a "temperature" entry (which a nan
    temperature is not); an absent entry or an unset bound is skipped.  When no check applies, and on the
    empty mapping, the result is true for every metric. *)
Theorem check_thresholds_is_conjunction :
  (forall (m : metric) (t : gmap string (option Q * option Q)),
      _check_thresholds m t
      = soh_check m t && resistance_check m t && temperature_check m t) /\
  (forall (m : metric) (t : gmap string (option Q * option Q)),
      _check_thresholds m t = true <->
      (forall min_value max_value,
          t !! "soh"%string = Some (Some min_value, max_value) ->
          min_value <= soh_percent m) /\
      (forall min_value max_value,
          t !! "resistance"%string = Some (min_value, Some max_value) ->
          internal_resistance m <= max_value) /\
      (forall min_value max_value,
          t !! "temperature"%string = Some (min_value, Some max_value) ->
          float_le (m_temperature_c m) (Fin max_value))) /\
  (forall (m : metric) (t : gmap string (option Q * option Q)),
      no_check_applies t -> _check_thresholds m t = true) /\
  (forall m : metric, _check_thresholds m ∅ = true).
Proof.
  split; [exact check_thresholds_checks |].
  split.
  { intros m t. rewrite check_thresholds_checks, !andb_true_iff.
    rewrite soh_check_true, resistance_check_true, temperature_check_true.
    tauto. }
  split.
  { intros m t (H1 & H2 & H3).
    rewrite check_thresholds_checks, !andb_true_iff.
    rewrite soh_check_true, resistance_check_true, temperature_check_true.
    repeat split; intros mn mx E;
      [destruct (H1 mn mx E) | destruct (H2 mn mx E) | destruct (H3 mn mx E)]. }
  intros m. reflexivity.
Qed.

Lemma check_thresholds_same_read (m : metric)
    (t1 t2 : gmap string (option Q * option Q)) :
  same_read_bounds t1 t2 -> _check_thresholds m t1 = _check_thresholds m t2.
Proof.
  intros (H1 & H2 & H3). rewrite !check_thresholds_checks.
  unfold soh_check, resistance_check, temperature_check.
  destruct (t1 !! "soh"%string) as [[[mn |] ?] |];
    destruct (t2 !! "soh"%string) as [[[mn2 |] ?] |]; cbn in H1; simplify_eq;
    destruct (t1 !! "resistance"%string) as [[? [mx |]] |];
    destruct (t2 !! "resistance"%string) as [[? [mx2 |]] |]; cbn in H2; simplify_eq;
    destruct (t1 !! "temperature"%string) as [[? [mx' |]] |];
    destruct (t2 !! "temperature"%string) as [[? [mx2' |]] |]; cbn in H3; simplify_eq;
    reflexivity.
Qed.

(** C10.  Two threshold mappings that agree on the bounds the policy
    reads give the same verdict for every metric: the maximum of a "soh"
    entry, the minimum of a "resistance" or "temperature" entry, and
    entries under any other key have no influence. *)
Theorem check_thresholds_ignores_unread_bounds :
  (forall (m : metric) (t1 t2 : gmap string (option Q * option Q)),
      same_read_bounds t1 t2 -> _check_thresholds m t1 = _check_thresholds m t2) /\
  (forall (m : metric) (t : gmap string (option Q * option Q))
          (min_value max_value max_value' : option Q),
      _check_thresholds m (<["soh"%string := (min_value, max_value)]> t)
      = _check_thresholds m (<["soh"%string := (min_value, max_value')]> t)) /\
  (forall (m : metric) (t : gmap string (option Q * option Q))
          (min_value min_value' max_value : option Q),
      _check_thresholds m (<["resistance"%string := (min_value, max_value)]> t)
      = _check_thresholds m (<["resistance"%string := (min_value', max_value)]> t)) /\
  (forall (m : metric) (t : gmap string (option Q * option Q))
          (min_value min_value' max_value : option Q),
      _check_thresholds m (<["temperature"%string := (min_value, max_value)]> t)
      = _check_thresholds m (<["temperature"%string := (min_value', max_value)]> t)) /\
  (forall (m : metric) (t : gmap string (option Q * option Q))
          (k : string) (v : option Q * option Q),
      k <> "soh"%string -> k <> "resistance"%string -> k <> "temperature"%string ->
      _check_thresholds m (<[k := v]> t) = _check_thresholds m t /\
      _check_thresholds m (delete k t) = _check_thresholds m t).
Proof.
  split; [exact check_thresholds_same_read |].
  split.
  { intros m t mn mx mx'. apply check_thresholds_same_read.
    unfold same_read_bounds. rewrite !lookup_insert_eq.
    rewrite !lookup_insert_ne by discriminate. auto. }
  split.
  { intros m t mn mn' mx. apply check_thresholds_same_read.
    unfold same_read_bounds. rewrite !lookup_insert_eq.
    rewrite !lookup_insert_ne by discriminate. auto. }
  split.
  { intros m t mn mn' mx. apply check_thresholds_same_read.
    unfold same_read_bounds. rewrite !lookup_insert_eq.
    rewrite !lookup_insert_ne by discriminate. auto. }
  intros m t k v K1 K2 K3.
  split; apply check_thresholds_same_read; unfold same_read_bounds.
  - rewrite !lookup_insert_ne by congruence. auto.
  - rewrite !lookup_delete_ne by congruence. auto.
Qed.

Lemma check_thresholds_is_conjunction_witness :
  _check_thresholds sample_metric
    (<["soh"%string := (None, Some 10)]> (<["humidity"%string := (Some 1, Some 2)]> ∅))
  = true /\
  (_check_thresholds sample_metric
     (<["soh"%string := (Some 80, None)]> (<["temperature"%string := (None, Some 20)]> ∅))
   = true <-> False).
Proof.
  split.
  - apply (proj1 (proj2 (proj2 check_thresholds_is_conjunction))).
    repeat split; intros mn mx; vm_compute; discriminate.
  - rewrite (proj1 (proj2 check_thresholds_is_conjunction)). split; [| tauto].
    intros (_ & _ & H). specialize (H None 20 eq_refl). vm_compute in H.
    now apply H.
Defined.

Lemma check_thresholds_ignores_unread_bounds_witness :
  _check_thresholds sample_metric
    (<["soh"%string := (Some 80, Some 10)]> (<["humidity"%string := (Some 1, Some 2)]> ∅))
  = _check_thresholds sample_metric (<["soh"%string := (Some 80, None)]> ∅).
Proof.
  apply (proj1 check_thresholds_ignores_unread_bounds).
  repeat split; reflexivity.
Defined.

End ThresholdProofs.

(* ================================================================== *)
(** * Data frame operations *)

Module PandasProofs.

Lemma eqb_id_eq (a b : option Z) : pd.eqb_id a b = true <-> a = b.
Proof.
  destruct a as [x |], b as [y |]; cbn; try (split; congruence).
  rewrite Z.eqb_eq. split; congruence.
Qed.

Lemma eqb_id_refl (a : option Z) : pd.eqb_id a a = true.
Proof. now apply eqb_id_eq. Qed.

Lemma seen_spec (x : option Z) (seen : list (option Z)) :
  existsb (pd.eqb_id x) seen = true <-> In x seen.
Proof.
  rewrite existsb_exists. split.
  - intros (y & Hy & E). apply eqb_id_eq in E. now subst.
  - intros H. exists x. split; [exact H | apply eqb_id_refl].
Qed.

Lemma unique_from_In (seen l : list (option Z)) (a : option Z) :
  In a (pd.unique_from seen l) <-> In a l /\ ~ In a seen.
Proof.
  revert seen. induction l as [| x tl IH]; intros seen; cbn [pd.unique_from].
  - cbn. tauto.
  - destruct (existsb (pd.eqb_id x) seen) eqn:E.
    + apply seen_spec in E. rewrite IH. cbn [In]. split.
      * intros [H1 H2]. auto.
      * intros [[-> | H1] H2]; [contradiction | auto].
    + assert (Hx : ~ In x seen) by (rewrite <- seen_spec; congruence).
      cbn [In]. rewrite IH. cbn [In]. split.
      * intros [<- | [H1 H2]]; [auto |]. split; [auto |]. intros H; apply H2; now right.
      * intros [[<- | H1] H2]; [now left |].
        destruct (option_eq_dec x a) as [-> | Hne]; [now left | right].
        split; [exact H1 |]. intros [E' | H3]; [congruence | contradiction].
Qed.

Lemma unique_from_NoDup (seen l : list (option Z)) :
  NoDup (pd.unique_from seen l).
Proof.
  revert seen. induction l as [| x tl IH]; intros seen; cbn [pd.unique_from].
  - constructor.
  - destruct (existsb (pd.eqb_id x) seen); [apply IH |].
    constructor; [| apply IH].
    rewrite unique_from_In. intros [_ H]. apply H. now left.
Qed.

Lemma first_index_cons_ne (a x : option Z) (l : list (option Z)) :
  x <> a -> first_index a (x :: l) = S (first_index a l).
Proof.
  intros H. cbn [first_index].
  destruct (pd.eqb_id x a) eqn:E; [apply eqb_id_eq in E; contradiction | reflexivity].
Qed.

(** The order of [unique] is the order of first appearance. *)
Lemma unique_from_order (seen l : list (option Z)) (i j : nat) (a b : option Z) :
  nth_error (pd.unique_from seen l) i = Some a ->
  nth_error (pd.unique_from seen l) j = Some b ->
  (i < j)%nat ->
  (first_index a l < first_index b l)%nat.
Proof.
  revert seen i j. induction l as [| x tl IH]; intros seen i j Ha Hb Hij;
    cbn [pd.unique_from] in Ha, Hb.
  - destruct i; discriminate.
  - destruct (existsb (pd.eqb_id x) seen) eqn:E.
    + apply seen_spec in E.
      assert (In a (pd.unique_from seen tl)) as Ia by (eapply nth_error_In; eauto).
      assert (In b (pd.unique_from seen tl)) as Ib by (eapply nth_error_In; eauto).
      apply unique_from_In in Ia as [_ Na], Ib as [_ Nb].
      rewrite !first_index_cons_ne by congruence.
      apply -> Nat.succ_lt_mono. eapply IH; eauto.
    + destruct j as [| j]; [lia |]. cbn [nth_error] in Hb.
      assert (In b (pd.unique_from (x :: seen) tl)) as Ib by (eapply nth_error_In; eauto).
      apply unique_from_In in Ib as [_ Nb].
      assert (x <> b) by (intros ->; apply Nb; now left).
      rewrite (first_index_cons_ne b x) by assumption.
      destruct i as [| i]; cbn [nth_error] in Ha.
      * injection Ha as <-. cbn [first_index]. rewrite eqb_id_refl. lia.
      * assert (In a (pd.unique_from (x :: seen) tl)) as Ia by (eapply nth_error_In; eauto).
        apply unique_from_In in Ia as [_ Na].
        assert (x <> a) by (intros ->; apply Na; now left).
        rewrite (first_index_cons_ne a x) by assumption.
        apply -> Nat.succ_lt_mono. eapply IH; eauto. lia.
Qed.

Lemma insert_by_timestamp_perm (r : row) (l : list row) :
  Permutation (pd.insert_by_timestamp r l) (r :: l).
Proof.
  induction l as [| r' tl IH]; cbn [pd.insert_by_timestamp]; [reflexivity |].
  destruct (timestamp r <=? timestamp r')%Z; [reflexivity |].
  rewrite IH. apply perm_swap.
Qed.

Lemma sort_values_perm (l : list row) : Permutation (pd.sort_values l) l.
Proof.
  unfold pd.sort_values.
  induction l as [| r tl IH]; cbn [fold_right]; [reflexivity |].
  rewrite insert_by_timestamp_perm. now constructor.
Qed.

Lemma insert_by_timestamp_sorted (r : row) (l : list row) :
  Sorted (fun a b => (timestamp a <= timestamp b)%Z) l ->
  Sorted (fun a b => (timestamp a <= timestamp b)%Z) (pd.insert_by_timestamp r l).
Proof.
  induction 1 as [| r' tl Hs IH Hhd]; cbn [pd.insert_by_timestamp].
  - repeat constructor.
  - destruct (Z.leb_spec (timestamp r) (timestamp r')).
    + repeat constructor; assumption.
    + constructor; [exact IH |].
      destruct tl as [| r'' tl']; cbn [pd.insert_by_timestamp].
      * constructor. lia.
      * inversion Hhd; subst.
        destruct (Z.leb_spec (timestamp r) (timestamp r'')); constructor; lia.
Qed.

Lemma sort_values_sorted (l : list row) :
  Sorted (fun a b => (timestamp a <= timestamp b)%Z) (pd.sort_values l).
Proof.
  unfold pd.sort_values.
  induction l as [| r tl IH]; cbn [fold_right]; [constructor |].
  now apply insert_by_timestamp_sorted.
Qed.

End PandasProofs.

(* ================================================================== *)
(** * Rounding *)

Module RoundProofs.

#[global] Instance rint_proper : Proper (Qeq ==> eq) rint.
Proof.
  intros x y E. unfold rint.
  rewrite (Qfloor_comp x y E).
  destruct (Qlt_le_dec (x - _) _), (Qlt_le_dec (y - _) _); try lra; try reflexivity.
  destruct (Qlt_le_dec _ (x - _)), (Qlt_le_dec _ (y - _)); try lra; reflexivity.
Qed.

#[global] Instance round2_proper : Proper (Qeq ==> eq) round2.
Proof.
  intros x y E. unfold round2.
  assert (E' : x * 100 == y * 100) by (rewrite E; reflexivity).
  now rewrite (rint_proper _ _ E').
Qed.

Lemma rint_near (x : Q) : Qabs (inject_Z (rint x) - x) <= 1 # 2.
Proof.
  unfold rint.
  pose proof (Qfloor_le x) as Hlo.
  pose proof (Qlt_floor x) as Hhi.
  rewrite inject_Z_plus in Hhi. change (inject_Z 1) with 1 in Hhi.
  apply Qabs_Qle_condition.
  destruct (Qlt_le_dec _ _) as [L | L].
  - lra.
  - destruct (Qlt_le_dec _ _) as [L' | L'].
    + rewrite inject_Z_plus. change (inject_Z 1) with 1. lra.
    + destruct (Z.even _).
      * lra.
      * rewrite inject_Z_plus. change (inject_Z 1) with 1. lra.
Qed.

(** [round2 x] has two decimals and is within half a hundredth of [x]. *)
Lemma round2_spec (x : Q) :
  exists k : Z, round2 x == inject_Z k / 100 /\ Qabs (round2 x - x) <= 1 # 200.
Proof.
  exists (rint (x * 100)). unfold round2.
  rewrite Qred_correct. split; [reflexivity |].
  pose proof (rint_near (x * 100)) as H.
  apply Qabs_Qle_condition in H. apply Qabs_Qle_condition.
  set (k := inject_Z (rint (x * 100))) in *.
  assert (E : k / 100 - x == (k - x * 100) / 100) by field.
  rewrite E.
  assert (E2 : (k - x * 100) / 100 == (k - x * 100) * (1 # 100)) by field.
  rewrite E2. lra.
Qed.

End RoundProofs.

(* ================================================================== *)
(** * Equal inputs give equal outputs *)

Module OrderProofs.
Import BatteryHealthProcessor ResistanceProofs SohProofs.

Lemma py_max_proper (a a' b b' : Q) :
  a == a' -> b == b' -> py_max a b == py_max a' b'.
Proof.
  intros Ha Hb. unfold py_max.
  destruct (Qlt_le_dec a b), (Qlt_le_dec a' b'); lra.
Qed.

Lemma searchsorted_proper (xs : list Q) (v v' : Q) :
  v == v' -> np.searchsorted xs v = np.searchsorted xs v'.
Proof.
  intros E. induction xs as [| x tl IH]; cbn [np.searchsorted]; [reflexivity |].
  destruct (Qlt_le_dec x v), (Qlt_le_dec x v'); try lra; congruence.
Qed.

#[global] Instance interp1d_proper (x y : list Q) :
  Proper (Qeq ==> Qeq) (scipy.interp1d x y).
Proof.
  intros v v' E. unfold scipy.interp1d.
  rewrite (searchsorted_proper x v v' E), E. reflexivity.
Qed.

#[global] Instance estimate_soc_proper : Proper (Qeq ==> Qeq) estimate_soc.
Proof.
  intros v v' E. unfold estimate_soc, soc_interpolator, _build_soc_interpolator.
  apply clip_proper; [| reflexivity | reflexivity].
  now apply interp1d_proper.
Qed.

#[global] Instance resistance_soh_proper : Proper (Qeq ==> Qeq) resistance_soh.
Proof.
  intros r r' E. unfold resistance_soh.
  assert (E1 : Qle_bool r base_resistance = Qle_bool r' base_resistance).
  { apply eq_true_iff_eq. rewrite !Qle_bool_iff, E. reflexivity. }
  assert (E2 : Qle_bool aged_resistance r = Qle_bool aged_resistance r').
  { apply eq_true_iff_eq. rewrite !Qle_bool_iff, E. reflexivity. }
  rewrite E1, E2.
  destruct (Qle_bool r' base_resistance); [reflexivity |].
  destruct (Qle_bool aged_resistance r'); [reflexivity |].
  now rewrite E.
Qed.

End OrderProofs.

(* ================================================================== *)
(** * Arrays of floats *)

Module ArrayProofs.
Import BatteryHealthProcessor ResistanceProofs.

Lemma split_nan_finite (qs : list Q) : np.split_nan (map Fin qs) = (qs, None).
Proof.
  induction qs as [| q qs IH]; [reflexivity |].
  cbn [map np.split_nan]. now rewrite IH.
Qed.

Lemma array_finite (qs : list Q) : np.array (map Fin qs) = FloatArr qs.
Proof. unfold np.array. now rewrite split_nan_finite. Qed.

Lemma split_nan_spec (l : list float) :
  match np.split_nan l with
  | (qs, None) => l = map Fin qs
  | (qs, Some after) => l = nan_entries qs after
  end.
Proof.
  induction l as [| [q |] l IH]; cbn [np.split_nan]; [reflexivity | | reflexivity].
  destruct (np.split_nan l) as [qs [after |]]; subst l; reflexivity.
Qed.

(** An array of floats is without nan, or it holds one. *)
Lemma array_cases (l : list float) :
  (exists qs, l = map Fin qs /\ np.array l = FloatArr qs) \/
  (exists before after,
      l = nan_entries before after /\ np.array l = NanArr before after).
Proof.
  unfold np.array. pose proof (split_nan_spec l) as H.
  destruct (np.split_nan l) as [qs [after |]]; [right | left]; eauto.
Qed.

Lemma nan_entries_In (before : list Q) (after : list float) :
  In NaN (nan_entries before after).
Proof. unfold nan_entries. apply in_or_app. right. now left. Qed.

Lemma finite_not_nan (qs : list Q) : ~ In NaN (map Fin qs).
Proof. intros H. apply in_map_iff in H as (q & E & _). discriminate. Qed.

Lemma array_float (l : list float) :
  ~ In NaN l -> exists qs, l = map Fin qs /\ np.array l = FloatArr qs.
Proof.
  intros H. destruct (array_cases l) as [F | (b & a & E & _)]; [exact F |].
  exfalso. apply H. rewrite E. apply nan_entries_In.
Qed.

Lemma array_nan (l : list float) :
  In NaN l -> exists before after, np.array l = NanArr before after.
Proof.
  intros H. destruct (array_cases l) as [(qs & E & _) | (b & a & _ & E)]; [| eauto].
  exfalso. rewrite E in H. now apply finite_not_nan in H.
Qed.

Lemma nan_dec (l : list float) : In NaN l \/ ~ In NaN l.
Proof.
  destruct (array_cases l) as [(qs & E & _) | (b & a & E & _)]; rewrite E.
  - right. apply finite_not_nan.
  - left. apply nan_entries_In.
Qed.

Lemma nan_entries_length (before : list Q) (after : list float) :
  length (nan_entries before after) = S (length before + length after).
Proof. unfold nan_entries. rewrite length_app, length_map. cbn [length]. lia. Qed.

Lemma len_array (l : list float) : len (np.array l) = length l.
Proof.
  destruct (array_cases l) as [(qs & -> & ->) | (b & a & -> & ->)]; cbn [len].
  - now rewrite length_map.
  - now rewrite nan_entries_length.
Qed.

Lemma ne_zero_array (l : list float) : np.ne_zero (np.array l) = map float_ne_zero l.
Proof.
  destruct (array_cases l) as [(qs & -> & ->) | (b & a & -> & ->)]; cbn [np.ne_zero].
  - now rewrite map_map.
  - reflexivity.
Qed.

Lemma select_map {A B} (f : A -> B) (l : list A) (mask : list bool) :
  np.select (map f l) mask = map f (np.select l mask).
Proof.
  revert mask. induction l as [| a l IH]; intros [| b mask]; try reflexivity.
  cbn [map np.select]. destruct b; cbn [map]; now rewrite IH.
Qed.

Lemma select_filter {A} (f : A -> bool) (l : list A) :
  np.select l (map f l) = List.filter f l.
Proof.
  induction l as [| a l IH]; [reflexivity |].
  cbn [map np.select List.filter]. destruct (f a); now rewrite IH.
Qed.

Lemma count_true_filter {A} (f : A -> bool) (l : list A) :
  np.count_true (map f l) = length (List.filter f l).
Proof.
  unfold np.count_true. induction l as [| a l IH]; [reflexivity |].
  cbn [map List.filter]. unfold id at 1. destruct (f a); cbn [length]; now rewrite IH.
Qed.

Lemma index_mask_array (l : list float) (mask : list bool) :
  np.index_mask (np.array l) mask
  = if Nat.eqb (length l) (length mask) then OK (np.array (np.select l mask))
    else Raise IndexError.
Proof.
  unfold np.index_mask. rewrite len_array.
  destruct (Nat.eqb _ _); [| reflexivity].
  destruct (array_cases l) as [(qs & -> & ->) | (b & a & -> & ->)]; [| reflexivity].
  now rewrite select_map, array_finite.
Qed.

(** The mean of an array of floats is a number exactly when the array is
    not empty and holds no nan. *)
Lemma mean_array (l : list float) :
  exists a, np.mean (np.array l) = OK a /\ (a = NaN <-> l = [] \/ In NaN l).
Proof.
  destruct (array_cases l) as [(qs & -> & ->) | (b & a & -> & ->)].
  - destruct qs as [| q qs]; cbn [np.mean map].
    + exists NaN. split; [reflexivity |]. split; auto.
    + eexists. split; [reflexivity |]. split; [discriminate |].
      intros [H | H]; [discriminate |].
      now apply (finite_not_nan (q :: qs)) in H.
  - exists NaN. split; [reflexivity |]. split; [| reflexivity].
    intros _. right. apply nan_entries_In.
Qed.

Lemma mean_array_finite (qs : list Q) :
  qs <> [] -> np.mean (np.array (map Fin qs)) = OK (Fin (np.mean_f qs)).
Proof.
  intros H. rewrite array_finite. destruct qs; [contradiction | reflexivity].
Qed.

(** [calculate_internal_resistance] on two arrays of floats of one
    length. *)
Lemma calculate_internal_resistance_array (vs cs : list float) :
  length vs = length cs ->
  calculate_internal_resistance (np.array vs) (np.array cs)
  = if (length cs <? 2)%nat then OK 0
    else if (length (List.filter float_ne_zero cs) <? 2)%nat then OK 0
    else
      coeffs ← np.polyfit1 (np.array (List.filter float_ne_zero cs))
                           (np.array (np.select vs (map float_ne_zero cs)));
      OK (py_max_float 0
            (float_map (fun r => r * 1000) (float_map Qopp (fst coeffs)))).
Proof.
  intros Hlen. unfold calculate_internal_resistance.
  rewrite !len_array, Hlen, orb_diag.
  destruct (length cs <? 2)%nat; [reflexivity |].
  rewrite ne_zero_array, count_true_filter.
  destruct (length (List.filter float_ne_zero cs) <? 2)%nat; [reflexivity |].
  rewrite !index_mask_array, length_map, Hlen, Nat.eqb_refl.
  cbn [mbind result_bind bind]. now rewrite select_filter.
Qed.

Lemma polyfit1_array_nan (xs ys : list float) :
  In NaN xs -> np.polyfit1 (np.array xs) (np.array ys) = Raise LinAlgError.
Proof.
  intros H. destruct (array_nan xs H) as (b & a & ->).
  destruct (array_cases ys) as [(qs & _ & ->) | (b' & a' & _ & ->)]; reflexivity.
Qed.

Lemma polyfit1_array_finite (xs : list Q) (ys : list float) :
  exists coeffs, np.polyfit1 (np.array (map Fin xs)) (np.array ys) = OK coeffs.
Proof.
  rewrite array_finite.
  destruct (array_cases ys) as [(qs & _ & ->) | (b' & a' & _ & ->)];
    eexists; reflexivity.
Qed.

Lemma filter_ne_zero_nan (cs : list float) :
  In NaN (List.filter float_ne_zero cs) <-> In NaN cs.
Proof. rewrite filter_In. cbn [float_ne_zero]. tauto. Qed.

(** On arrays of floats of one length the function raises exactly when a
    current is nan and at least two currents are nan or not zero. *)
Lemma calculate_internal_resistance_array_raises (vs cs : list float) :
  length vs = length cs ->
  (calculate_internal_resistance (np.array vs) (np.array cs) = Raise LinAlgError /\
   In NaN cs /\ (2 <= length (List.filter float_ne_zero cs))%nat) \/
  ((exists r, calculate_internal_resistance (np.array vs) (np.array cs) = OK r) /\
   ~ (In NaN cs /\ (2 <= length (List.filter float_ne_zero cs))%nat)).
Proof.
  intros Hlen. rewrite (calculate_internal_resistance_array vs cs Hlen).
  assert (Hf : (length (List.filter float_ne_zero cs) <= length cs)%nat)
    by apply filter_length_le.
  destruct (Nat.ltb_spec (length cs) 2) as [L1 | L1].
  { right. split; [eauto |]. intros [_ H]. lia. }
  destruct (Nat.ltb_spec (length (List.filter float_ne_zero cs)) 2) as [L2 | L2].
  { right. split; [eauto |]. intros [_ H]. lia. }
  destruct (nan_dec cs) as [Hn | Hn].
  - left. rewrite polyfit1_array_nan by (now apply filter_ne_zero_nan). auto.
  - right. split; [| tauto].
    destruct (array_float (List.filter float_ne_zero cs)) as (qs & E & _).
    { now rewrite filter_ne_zero_nan. }
    rewrite E.
    destruct (polyfit1_array_finite qs (np.select vs (map float_ne_zero cs)))
      as (coeffs & ->).
    cbn [mbind result_bind bind]. eauto.
Qed.

Lemma py_max_float_nonneg (x : float) : 0 <= py_max_float 0 x.
Proof. destruct x; cbn [py_max_float]; [apply py_max_spec | lra]. Qed.

(** Whatever the arrays are, a resistance that is returned is not
    negative. *)
Lemma calculate_internal_resistance_nonneg (voltage_data current_data : ndarray) (r : Q) :
  calculate_internal_resistance voltage_data current_data = OK r -> 0 <= r.
Proof.
  unfold calculate_internal_resistance.
  destruct (_ || _); [intros H; apply OK_inj in H; subst; lra |].
  destruct (_ <? _)%nat; [intros H; apply OK_inj in H; subst; lra |].
  destruct (np.index_mask voltage_data _); cbn [mbind result_bind bind]; [| discriminate].
  destruct (np.index_mask current_data _); cbn [mbind result_bind bind]; [| discriminate].
  destruct (np.polyfit1 _ _); cbn [mbind result_bind bind]; [| discriminate].
  intros H. apply OK_inj in H. subst. apply py_max_float_nonneg.
Qed.

End ArrayProofs.
(* ================================================================== *)
(** * The measurement file pipeline *)

Module ProcessProofs.
Import BatteryHealthProcessor ResistanceProofs SohProofs PandasProofs
  RoundProofs OrderProofs ArrayProofs.

(** ** Loops *)

Lemma for_each_ok {A B} (f : A -> result B) (P : A -> B -> Prop) (l : list A) :
  (forall a, In a l -> exists b, f a = OK b /\ P a b) ->
  exists bs, for_each f l = OK bs /\ Forall2 P l bs.
Proof.
  induction l as [| a tl IH]; intros H.
  - exists []. split; [reflexivity | constructor].
  - destruct (H a (or_introl eq_refl)) as (b & Hb & Pb).
    destruct IH as (bs & Hbs & Pbs); [intros x Hx; apply H; now right |].
    exists (b :: bs). cbn [for_each]. rewrite Hb, Hbs.
    split; [reflexivity | now constructor].
Qed.



Lemma for_each_out {A B} (f : A -> result B) (l : list A) (bs : list B) :
  for_each f l = OK bs -> forall b, In b bs -> exists a, In a l /\ f a = OK b.
Proof.
  revert bs. induction l as [| a tl IH]; cbn [for_each]; intros bs H b Hb.
  - apply OK_inj in H. subst bs. destruct Hb.
  - destruct (f a) as [b0 | e] eqn:Ea; cbn [mbind result_bind bind] in H;
      [| discriminate].
    destruct (for_each f tl) as [bs0 | e]; cbn [mbind result_bind bind] in H;
      [| discriminate].
    apply OK_inj in H. subst bs. destruct Hb as [<- | Hb].
    + exists a. split; [now left | exact Ea].
    + destruct (IH bs0 eq_refl b Hb) as (x & Hx & Ex).
      exists x. split; [now right | exact Ex].
Qed.

Lemma for_each_in {A B} (f : A -> result B) (l : list A) (bs : list B) (a : A) :
  for_each f l = OK bs -> In a l -> exists b, f a = OK b /\ In b bs.
Proof.
  revert bs. induction l as [| x tl IH]; cbn [for_each]; intros bs H Ha;
    [destruct Ha |].
  destruct (f x) as [b0 | e] eqn:Ex; cbn [mbind result_bind bind] in H;
    [| discriminate].
  destruct (for_each f tl) as [bs0 | e]; cbn [mbind result_bind bind] in H;
    [| discriminate].
  apply OK_inj in H. subst bs. destruct Ha as [<- | Ha].
  - exists b0. split; [exact Ex | now left].
  - destruct (IH bs0 eq_refl Ha) as (b & Hb & Hin).
    exists b. split; [exact Hb | now right].
Qed.

(** ** Groups of rows *)

Lemma filter_perm {A} (f : A -> bool) (l l' : list A) :
  Permutation l l' -> Permutation (List.filter f l) (List.filter f l').
Proof.
  induction 1 as [| a l l' _ IH | a b l | l l' l'' _ IH1 _ IH2].
  - reflexivity.
  - cbn [List.filter]. destruct (f a); [now constructor | exact IH].
  - cbn [List.filter]. destruct (f a), (f b); try reflexivity. apply perm_swap.
  - now rewrite IH1.
Qed.

Lemma rows_same_length (g : list row) :
  length (voltages_of g) = length (currents_of g).
Proof. unfold voltages_of, currents_of. now rewrite !length_map. Qed.

(** On two float arrays of one length the function returns a number,
    and that number is not negative. *)
Lemma calculate_internal_resistance_total (vs cs : list Q) :
  length vs = length cs ->
  exists r, calculate_internal_resistance (FloatArr vs) (FloatArr cs) = OK r /\ 0 <= r.
Proof.
  intros Hlen. rewrite calculate_internal_resistance_float, Hlen, Nat.eqb_refl.
  destruct (_ || _); [exists 0; split; [reflexivity | lra] |].
  destruct (_ <? _)%nat; [exists 0; split; [reflexivity | lra] |].
  eexists. split; [reflexivity | apply py_max_spec].
Qed.

(** ** The cells of a file *)

Lemma isna_spec (f : field) : isna f = true <-> read_as_missing f.
Proof.
  destruct f as [q | s]; cbn [isna].
  - split; [discriminate | intros (s & E & _); discriminate].
  - rewrite existsb_exists. split.
    + intros (x & Hx & E). apply String.eqb_eq in E. subst x. now exists s.
    + intros (s' & E & H). injection E as <-. exists s.
      split; [exact H | apply String.eqb_refl].
Qed.


(** A cell that is not kept as text and is not a number is read as a
    missing value. *)
Lemma not_text_missing (f : field) :
  is_text f = false -> to_float f = NaN -> read_as_missing f.
Proof.
  destruct f as [q | s]; [discriminate |]. cbn [is_text]. intros E _.
  apply isna_spec. now apply negb_false_iff.
Qed.

Lemma missing_nan (f : field) : read_as_missing f -> to_float f = NaN.
Proof. intros (s & -> & _). reflexivity. Qed.

Lemma well_formed_row_spec (r : row) :
  well_formed_row r = true <->
  (exists c, cell_id r = Some c) /\
  is_number (voltage_v r) = true /\
  is_number (current_a r) = true /\
  is_number (temperature_c r) = true.
Proof.
  unfold well_formed_row. rewrite !andb_true_iff.
  destruct (cell_id r) as [c |].
  - split; [intros [[[_ ?] ?] ?]; eauto 6 | intros (_ & ? & ? & ?); auto].
  - split; [intros [[[? _] _] _]; discriminate | intros ([c ?] & _); discriminate].
Qed.

Lemma well_formed_In (df : list row) (r : row) :
  well_formed df -> In r df -> well_formed_row r = true.
Proof. unfold well_formed. rewrite forallb_forall. auto. Qed.

Lemma is_number_not_text (f : field) : is_number f = true -> is_text f = false.
Proof. destruct f; [reflexivity | discriminate]. Qed.

Lemma is_number_value (f : field) : is_number f = true -> to_float f = Fin (as_num f).
Proof. destruct f; [reflexivity | discriminate]. Qed.

Lemma is_object_spec (col : row -> field) (df : list row) :
  pd.is_object col df = true <-> exists r, In r df /\ is_text (col r) = true.
Proof. unfold pd.is_object. apply existsb_exists. Qed.

Lemma is_object_false (col : row -> field) (df : list row) :
  (forall r, In r df -> is_text (col r) = false) -> pd.is_object col df = false.
Proof.
  intros H. destruct (pd.is_object col df) eqn:E; [| reflexivity].
  apply is_object_spec in E as (r & Hr & Ht). rewrite (H r Hr) in Ht. discriminate.
Qed.

Lemma is_object_false_In (col : row -> field) (df : list row) (r : row) :
  pd.is_object col df = false -> In r df -> is_text (col r) = false.
Proof.
  intros H Hr. destruct (is_text (col r)) eqn:E; [| reflexivity].
  assert (O : pd.is_object col df = true) by (apply is_object_spec; eauto).
  congruence.
Qed.

Lemma well_formed_columns (df : list row) :
  well_formed df ->
  pd.is_object voltage_v df = false /\
  pd.is_object current_a df = false /\
  pd.is_object temperature_c df = false.
Proof.
  intros W. repeat split; apply is_object_false; intros r Hr;
    apply (well_formed_In df r W), well_formed_row_spec in Hr;
    apply is_number_not_text; tauto.
Qed.

Lemma values_float (col : row -> field) (df sel : list row) :
  pd.is_object col df = false ->
  pd.values col df sel = np.array (map (fun r => to_float (col r)) sel).
Proof. intros H. unfold pd.values. now rewrite H. Qed.

Lemma values_object (col : row -> field) (df sel : list row) :
  pd.is_object col df = true -> pd.values col df sel = ObjArr (map col sel).
Proof. intros H. unfold pd.values. now rewrite H. Qed.

(** A column of numbers gives an array without nan. *)
Lemma values_numbers (col : row -> field) (df sel : list row) :
  pd.is_object col df = false ->
  (forall r, In r sel -> is_number (col r) = true) ->
  pd.values col df sel = FloatArr (map (fun r => as_num (col r)) sel).
Proof.
  intros H N. rewrite (values_float col df sel H).
  rewrite <- array_finite, map_map. f_equal.
  apply map_ext_in. intros r Hr. now apply is_number_value, N.
Qed.

Lemma select_cell_In (df : list row) (c : Z) (r : row) :
  In r (pd.select_cell df c) <-> In r df /\ cell_id r = Some c.
Proof.
  unfold pd.select_cell. rewrite filter_In, eqb_id_eq. reflexivity.
Qed.

(** The code's selection is the group of the cell. *)
Lemma select_cell_rows (df : list row) (c : Z) :
  pd.select_cell df c = rows_of_cell df c.
Proof.
  unfold pd.select_cell, rows_of_cell. apply filter_ext. intros r.
  destruct (pd.eqb_id (cell_id r) (Some c)) eqn:E.
  - apply eqb_id_eq in E. symmetry. now apply bool_decide_eq_true.
  - symmetry. apply bool_decide_eq_false. intros H.
    apply eqb_id_eq in H. congruence.
Qed.

Lemma sorted_group (df : list row) (c : Z) :
  Permutation (pd.sort_values (pd.select_cell df c)) (rows_of_cell df c) /\
  time_ordered (pd.sort_values (pd.select_cell df c)).
Proof.
  split; [rewrite <- select_cell_rows; apply sort_values_perm |].
  apply sort_values_sorted.
Qed.

Lemma unique_In (l : list (option Z)) (a : option Z) :
  In a (pd.unique l) <-> In a l.
Proof. unfold pd.unique. rewrite unique_from_In. cbn. tauto. Qed.

Lemma select_cell_nonempty_id (df : list row) (c : Z) :
  pd.select_cell df c <> [] -> In (Some c) (pd.unique (map cell_id df)).
Proof.
  intros H. apply unique_In.
  destruct (pd.select_cell df c) as [| r g] eqn:E; [contradiction |].
  assert (Hr : In r (pd.select_cell df c)) by (rewrite E; now left).
  apply select_cell_In in Hr as [Hr Hc]. rewrite <- Hc. now apply in_map.
Qed.

Lemma id_select_cell_nonempty (df : list row) (c : Z) :
  In (Some c) (pd.unique (map cell_id df)) -> pd.select_cell df c <> [].
Proof.
  intros H. apply (proj1 (unique_In _ _)), in_map_iff in H as (r & Hc & Hr).
  assert (Hin : In r (pd.select_cell df c)) by (apply select_cell_In; auto).
  intros E. rewrite E in Hin. destruct Hin.
Qed.

Lemma sort_values_nonempty (l : list row) : l <> [] -> pd.sort_values l <> [].
Proof.
  intros H E. apply H.
  apply Permutation_nil. rewrite <- E. apply sort_values_perm.
Qed.

(** ** Rounding *)

Lemma rounded2_round2 (x : Q) : rounded2 x (round2 x).
Proof.
  destruct (round2_spec x) as (k & Hk & Hd). split; [now exists k | exact Hd].
Qed.

Lemma average_mean (l : list Q) : average l = np.mean_f l.
Proof. unfold average, sumf, np.mean_f. now rewrite map_id. Qed.

Lemma mean_float_nonempty (l : list Q) :
  l <> [] -> np.mean (FloatArr l) = OK (Fin (np.mean_f l)).
Proof. destruct l; [contradiction | reflexivity]. Qed.

(** ** A well-formed file *)

Section WellFormedFile.

Variable self : t.
Variable df : list row.
Hypothesis W : well_formed df.

(** One cell: the record is the one of the rows of the cell in the order
    of their timestamps. *)
Lemma process_cell_well_formed (c : Z) :
  pd.select_cell df c <> [] ->
  exists m, process_cell self df (Some c) = OK m /\
            record_of self c (pd.sort_values (pd.select_cell df c)) m.
Proof using W.
  intros Hne.
  destruct (well_formed_columns df W) as (Hv & Hc & Ht).
  unfold process_cell.
  set (g := pd.sort_values (pd.select_cell df c)).
  assert (Hg : forall r, In r g -> well_formed_row r = true).
  { intros r Hr. apply (well_formed_In df r W).
    apply (Permutation_in _ (sort_values_perm _)) in Hr.
    now apply select_cell_In in Hr. }
  assert (Gne : g <> []) by now apply sort_values_nonempty.
  rewrite (values_numbers voltage_v df g Hv), (values_numbers current_a df g Hc),
    (values_numbers temperature_c df g Ht)
    by (intros r Hr; apply Hg, well_formed_row_spec in Hr; tauto).
  fold (voltages_of g) (currents_of g) (temperatures_of g).
  rewrite !mean_float_nonempty
    by (unfold voltages_of, temperatures_of; destruct g; [contradiction | discriminate]).
  destruct (calculate_internal_resistance_total (voltages_of g) (currents_of g))
    as (r & Hr & _); [apply rows_same_length |].
  cbn [mbind result_bind bind]. rewrite Hr.
  cbn [mbind result_bind bind]. rewrite estimate_soh_resistance_only.
  cbn [mbind result_bind bind py_int float_map].
  eexists. split; [reflexivity |].
  split; [reflexivity |].
  exists r, (np.clip (np.mean_f [resistance_soh r]) 0 100).
  do 2 eexists.
  split; [exact Hr |]. split; [apply estimate_soh_resistance_only |].
  cbn [soc_percent soh_percent internal_resistance m_temperature_c].
  rewrite !average_mean.
  repeat split; try reflexivity; apply rounded2_round2.
Qed.

Lemma process_well_formed :
  exists out,
    process_measurement_file self df = OK out /\
    Forall2 (fun x m => x = Some (m_cell_id m) /\
                        record_of self (m_cell_id m)
                          (pd.sort_values (pd.select_cell df (m_cell_id m))) m)
            (pd.unique (map cell_id df)) out.
Proof using W.
  unfold process_measurement_file.
  apply for_each_ok. intros x Hx.
  assert (Hx' := Hx).
  apply unique_In, in_map_iff in Hx as (r & Hr & Hin).
  pose proof (well_formed_In df r W Hin) as Wr.
  apply well_formed_row_spec in Wr as ([c Hc] & _).
  rewrite Hc in Hr. subst x.
  destruct (process_cell_well_formed c) as (m & Hm & Hd);
    [now apply id_select_cell_nonempty |].
  exists m. split; [exact Hm |].
  destruct Hd as [Ec Hd]. rewrite Ec. split; [reflexivity |].
  split; [exact Ec | exact Hd].
Qed.

End WellFormedFile.

Lemma cell_records_ids {P : metric -> Prop} (ids : list (option Z)) (out : list metric) :
  Forall2 (fun x m => x = Some (m_cell_id m) /\ P m) ids out ->
  map (fun m => Some (m_cell_id m)) out = ids.
Proof.
  induction 1 as [| x m ids out (Hx & _) _ IH]; [reflexivity |].
  cbn [map]. now rewrite IH, Hx.
Qed.

(** C6.  On a well-formed file the pipeline returns one record per
    distinct cell id, in the order in which the ids first appear.  Each
    record holds the id and, for the rows of that cell taken in the order
    of their timestamps, the state of charge of the average voltage, the
    state of health from the resistance alone, the resistance of the
    voltage and current series and the average temperature, every value
    rounded to two decimals. *)
Theorem process_measurement_file_per_cell (self : t) (df : list row) :
  well_formed df ->
  exists out,
    process_measurement_file self df = OK out /\
    map (fun m => Some (m_cell_id m)) out = pd.unique (map cell_id df) /\
    NoDup (map m_cell_id out) /\
    (forall c, In c (map m_cell_id out) <-> exists r, In r df /\ cell_id r = Some c) /\
    (forall i j a b,
        nth_error out i = Some a -> nth_error out j = Some b -> (i < j)%nat ->
        (first_index (Some (m_cell_id a)) (map cell_id df)
         < first_index (Some (m_cell_id b)) (map cell_id df))%nat) /\
    Forall (fun m =>
              exists g,
                Permutation g (rows_of_cell df (m_cell_id m)) /\
                time_ordered g /\
                record_of self (m_cell_id m) g m) out.
Proof.
  intros W.
  destruct (process_well_formed self df W) as (out & Hout & F).
  pose proof (cell_records_ids _ out F) as Hids.
  exists out. split; [exact Hout |]. split; [exact Hids |].
  assert (Hids' : map Some (map m_cell_id out) = pd.unique (map cell_id df))
    by (rewrite map_map; exact Hids).
  split.
  { apply (NoDup_map_inv Some). rewrite Hids'. apply unique_from_NoDup. }
  split.
  { intros c.
    assert (Hc : In c (map m_cell_id out) <-> In (Some c) (map cell_id df)).
    { rewrite <- (unique_In (map cell_id df)), <- Hids'. split.
      - apply in_map.
      - intros H. apply in_map_iff in H as (c' & E & H). now injection E as <-. }
    rewrite Hc, in_map_iff. split; intros (r & H1 & H2); exists r; auto. }
  split.
  { intros i j a b Ha Hb Hij.
    apply (unique_from_order [] (map cell_id df) i j); [| | exact Hij];
      fold (pd.unique (map cell_id df)); rewrite <- Hids;
      [exact (map_nth_error (fun m => Some (m_cell_id m)) i out Ha)
      | exact (map_nth_error (fun m => Some (m_cell_id m)) j out Hb)]. }
  clear Hout Hids Hids'.
  induction F as [| x m ids out' (_ & Hd) _ IH]; constructor; [| exact IH].
  exists (pd.sort_values (pd.select_cell df (m_cell_id m))).
  destruct (sorted_group df (m_cell_id m)) as [P S]. auto.
Qed.

Lemma process_measurement_file_per_cell_witness :
  exists out,
    process_measurement_file default interleaved_file = OK out /\
    map (fun m => Some (m_cell_id m)) out = [Some 2%Z; Some 1%Z] /\
    NoDup (map m_cell_id out) /\
    Forall (fun m =>
              exists g,
                Permutation g (rows_of_cell interleaved_file (m_cell_id m)) /\
                time_ordered g /\
                record_of default (m_cell_id m) g m) out.
Proof.
  destruct (process_measurement_file_per_cell default interleaved_file)
    as (out & H1 & H2 & H3 & _ & _ & H6).
  - reflexivity.
  - exists out. split; [exact H1 |]. split; [rewrite H2; reflexivity |].
    split; [exact H3 | exact H6].
Defined.

(** The records of the interleaved file: cell 2 first, then cell 1. *)
Example interleaved_file_records :
  process_measurement_file default interleaved_file
  = OK [ {| m_cell_id := 2; soc_percent := 40; soh_percent := 100;
            internal_resistance := 50; m_temperature_c := 51 # 2 |};
         {| m_cell_id := 1; soc_percent := 175 # 2; soh_percent := 100;
            internal_resistance := 0; m_temperature_c := 49 # 2 |} ].
Proof. vm_compute. reflexivity. Qed.

(** ** Files with text or missing values *)

Lemma count_true_all {A} (l : list A) :
  np.count_true (map (fun _ => true) l) = length l.
Proof.
  unfold np.count_true. induction l as [| a l IH]; [reflexivity |].
  cbn [map List.filter id length]. now rewrite IH.
Qed.

(** With strings as currents the function still returns 0 on fewer than
    two samples, and fails in [polyfit] otherwise. *)
Lemma calculate_internal_resistance_object (vs : list float) (cs : list field) :
  length vs = length cs ->
  calculate_internal_resistance (np.array vs) (ObjArr cs)
  = if (length cs <? 2)%nat then OK 0 else Raise TypeError.
Proof.
  intros Hlen. unfold calculate_internal_resistance.
  rewrite len_array. cbn [len np.ne_zero].
  rewrite Hlen, orb_diag, count_true_all.
  destruct (length cs <? 2)%nat; [reflexivity |].
  rewrite index_mask_array, length_map, Hlen, Nat.eqb_refl.
  unfold np.index_mask. cbn [len]. rewrite length_map, Nat.eqb_refl.
  cbn [mbind result_bind bind].
  destruct (np.array _); reflexivity.
Qed.



(** The resistance of a group of rows: the function returns, and returns
    the same on the float values of the two columns, or it fails for one
    of two reasons. *)
Lemma group_resistance (df g : list row) :
  (exists r,
      calculate_internal_resistance
        (np.array (map (fun r => to_float (voltage_v r)) g))
        (pd.values current_a df g) = OK r /\
      calculate_internal_resistance
        (np.array (map (fun r => to_float (voltage_v r)) g))
        (np.array (map (fun r => to_float (current_a r)) g)) = OK r /\
      ~ (pd.is_object current_a df = true /\ (2 <= length g)%nat) /\
      ~ (In NaN (map (fun r => to_float (current_a r)) g) /\
         (2 <= length (List.filter float_ne_zero
                         (map (fun r => to_float (current_a r)) g)))%nat)) \/
  (exists e,
      calculate_internal_resistance
        (np.array (map (fun r => to_float (voltage_v r)) g))
        (pd.values current_a df g) = Raise e /\
      (e = TypeError \/ e = LinAlgError) /\
      ((pd.is_object current_a df = true /\ (2 <= length g)%nat) \/
       (In NaN (map (fun r => to_float (current_a r)) g) /\
        (2 <= length (List.filter float_ne_zero
                        (map (fun r => to_float (current_a r)) g)))%nat))).
Proof.
  set (V := map (fun r => to_float (voltage_v r)) g).
  set (C := map (fun r => to_float (current_a r)) g).
  assert (LV : length V = length g) by apply length_map.
  assert (LC : length C = length g) by apply length_map.
  assert (LF : (length (List.filter float_ne_zero C) <= length g)%nat)
    by (rewrite <- LC; apply filter_length_le).
  destruct (pd.is_object current_a df) eqn:Hc.
  - rewrite (values_object current_a df g Hc).
    rewrite calculate_internal_resistance_object by (now rewrite length_map).
    rewrite length_map.
    destruct (Nat.ltb_spec (length g) 2) as [L | L].
    + left. exists 0. split; [reflexivity |]. split.
      * apply resistance_short. left. rewrite len_array. lia.
      * split; intros [_ H]; lia.
    + right. exists TypeError. auto.
  - rewrite (values_float current_a df g Hc). fold C.
    destruct (calculate_internal_resistance_array_raises V C) as [(E & N & L) | ((r & E) & N)];
      [lia | |].
    + right. exists LinAlgError. auto.
    + left. exists r. split; [exact E |]. split; [exact E |].
      split; [intros [H _]; discriminate | exact N].
Qed.

(** The loop body either fails, in the cases that [cell_fails] lists, or
    returns a record. *)
Lemma process_cell_cases (self : t) (df : list row) (x : option Z) :
  (cell_fails df x
     (pd.sort_values match x with Some c => pd.select_cell df c | None => [] end) /\
   exists e, process_cell self df x = Raise e /\
             (e = TypeError \/ e = ValueError \/ e = LinAlgError)) \/
  (~ cell_fails df x
       (pd.sort_values match x with Some c => pd.select_cell df c | None => [] end) /\
   exists m, process_cell self df x = OK m).
Proof.
  unfold process_cell, cell_fails. cbv zeta.
  set (g := pd.sort_values _).
  destruct (pd.is_object voltage_v df) eqn:Hv.
  { rewrite (values_object voltage_v df g Hv). cbn [np.mean mbind result_bind bind].
    left. split; [auto |]. exists TypeError. auto. }
  rewrite (values_float voltage_v df g Hv).
  destruct (mean_array (map (fun r => to_float (voltage_v r)) g)) as (av & -> & _).
  cbn [mbind result_bind bind].
  destruct (group_resistance df g) as [(r & -> & _ & N1 & N2) | (e & -> & Ke & F)];
    cbn [mbind result_bind bind].
  2:{ left. split; [tauto |]. exists e. split; [reflexivity | tauto]. }
  rewrite estimate_soh_resistance_only. cbn [mbind result_bind bind].
  destruct (pd.is_object temperature_c df) eqn:Ht.
  { rewrite (values_object temperature_c df g Ht). cbn [np.mean mbind result_bind bind].
    left. split; [auto |]. exists TypeError. auto. }
  rewrite (values_float temperature_c df g Ht).
  destruct (mean_array (map (fun r => to_float (temperature_c r)) g)) as (at_ & -> & _).
  cbn [mbind result_bind bind].
  destruct x as [c |]; cbn [py_int mbind result_bind bind].
  - right. split; [| eexists; reflexivity].
    intros [H | [H | [H | [H | H]]]]; try discriminate; tauto.
  - left. split; [auto |]. exists ValueError. auto.
Qed.

Lemma process_cell_raises (self : t) (df : list row) (x : option Z) :
  raises (process_cell self df x) <->
  cell_fails df x
    (pd.sort_values match x with Some c => pd.select_cell df c | None => [] end).
Proof.
  destruct (process_cell_cases self df x) as [[H (e & E & _)] | [H [m E]]]; rewrite E.
  - split; auto with result.
  - split; [intros R; now apply OK_not_raises in R | contradiction].
Qed.


(** What a returned record is made of. *)
Lemma process_cell_ok (self : t) (df : list row) (c : Z) (m : metric) :
  process_cell self df (Some c) = OK m ->
  pd.is_object voltage_v df = false /\
  pd.is_object temperature_c df = false /\
  exists av r at_,
    np.mean (np.array (map (fun r => to_float (voltage_v r))
                           (pd.sort_values (pd.select_cell df c)))) = OK av /\
    calculate_internal_resistance
      (np.array (map (fun r => to_float (voltage_v r))
                     (pd.sort_values (pd.select_cell df c))))
      (np.array (map (fun r => to_float (current_a r))
                     (pd.sort_values (pd.select_cell df c)))) = OK r /\
    np.mean (np.array (map (fun r => to_float (temperature_c r))
                           (pd.sort_values (pd.select_cell df c)))) = OK at_ /\
    m = {| m_cell_id := c;
           soc_percent := float_map round2 (float_map estimate_soc av);
           soh_percent := round2 (np.clip (np.mean_f [resistance_soh r]) 0 100);
           internal_resistance := round2 r;
           m_temperature_c := float_map round2 at_ |}.
Proof.
  unfold process_cell. cbv zeta.
  set (g := pd.sort_values _).
  destruct (pd.is_object voltage_v df) eqn:Hv.
  { rewrite (values_object voltage_v df g Hv). cbn [np.mean mbind result_bind bind].
    discriminate. }
  rewrite (values_float voltage_v df g Hv).
  destruct (mean_array (map (fun r => to_float (voltage_v r)) g)) as (av & Eav & _).
  rewrite Eav. cbn [mbind result_bind bind].
  destruct (group_resistance df g) as [(r & -> & Er & _) | (e & -> & _)];
    cbn [mbind result_bind bind]; [| discriminate].
  rewrite estimate_soh_resistance_only. cbn [mbind result_bind bind].
  destruct (pd.is_object temperature_c df) eqn:Ht.
  { rewrite (values_object temperature_c df g Ht). cbn [np.mean mbind result_bind bind].
    discriminate. }
  rewrite (values_float temperature_c df g Ht).
  destruct (mean_array (map (fun r => to_float (temperature_c r)) g)) as (at_ & Eat & _).
  rewrite Eat. cbn [py_int mbind result_bind bind].
  intros E. apply OK_inj in E.
  split; [reflexivity |]. split; [reflexivity |].
  exists av, r, at_. auto.
Qed.

Lemma process_out_cell (self : t) (df : list row) (out : list metric) (m : metric) :
  process_measurement_file self df = OK out -> In m out ->
  In (Some (m_cell_id m)) (pd.unique (map cell_id df)) /\
  process_cell self df (Some (m_cell_id m)) = OK m.
Proof.
  intros H Hm. destruct (for_each_out _ _ _ H m Hm) as (x & Hx & Ex).
  destruct x as [c |].
  - destruct (process_cell_ok self df c m Ex) as (_ & _ & av & r & at_ & _ & _ & _ & ->).
    cbn [m_cell_id]. auto.
  - exfalso. assert (R : raises (process_cell self df None)).
    { apply process_cell_raises. right. right. now left. }
    rewrite Ex in R. now apply OK_not_raises in R.
Qed.

Lemma in_group (df : list row) (c : Z) (r : row) :
  In r (pd.sort_values (pd.select_cell df c)) <-> In r (rows_of_cell df c).
Proof.
  destruct (sorted_group df c) as [P _].
  split; apply Permutation_in; [exact P | now symmetry].
Qed.

Lemma in_rows_of_cell (df : list row) (c : Z) (r : row) :
  In r (rows_of_cell df c) <-> In r df /\ cell_id r = Some c.
Proof. rewrite <- select_cell_rows. apply select_cell_In. Qed.

(** A float of a column of floats is nan exactly for a missing value. *)
Lemma nan_in_column (col : row -> field) (df : list row) (c : Z) :
  pd.is_object col df = false ->
  (In NaN (map (fun r => to_float (col r)) (pd.sort_values (pd.select_cell df c))) <->
   exists r, In r (rows_of_cell df c) /\ read_as_missing (col r)).
Proof.
  intros Ho. rewrite in_map_iff. split.
  - intros (r & E & Hr). apply in_group in Hr. exists r. split; [exact Hr |].
    apply not_text_missing; [| exact E].
    apply (is_object_false_In col df r Ho). now apply in_rows_of_cell in Hr.
  - intros (r & Hr & M). exists r. split; [now apply missing_nan | now apply in_group].
Qed.

Lemma float_map_nan (f : Q -> Q) (x : float) : float_map f x = NaN <-> x = NaN.
Proof. destruct x; cbn [float_map]; split; congruence. Qed.

(** In a returned record the state of charge is nan exactly when a
    voltage of the cell is missing, and likewise the temperature. *)
Lemma process_cell_nan (self : t) (df : list row) (c : Z) (m : metric) :
  process_cell self df (Some c) = OK m ->
  pd.select_cell df c <> [] ->
  (soc_percent m = NaN <->
   exists r, In r (rows_of_cell df c) /\ read_as_missing (voltage_v r)) /\
  (m_temperature_c m = NaN <->
   exists r, In r (rows_of_cell df c) /\ read_as_missing (temperature_c r)).
Proof.
  intros H Hne.
  apply process_cell_ok in H as (Hv & Ht & av & r & at_ & Eav & _ & Eat & ->).
  cbn [soc_percent m_temperature_c].
  assert (Gne : forall f : row -> float,
             map f (pd.sort_values (pd.select_cell df c)) <> []).
  { intros f E. apply map_eq_nil in E. now apply sort_values_nonempty in E. }
  split.
  - rewrite !float_map_nan, <- (nan_in_column voltage_v df c Hv).
    destruct (mean_array (map (fun r => to_float (voltage_v r))
                              (pd.sort_values (pd.select_cell df c))))
      as (a & Ea & Na).
    rewrite Ea in Eav. apply OK_inj in Eav. subst a. rewrite Na.
    split; [intros [E | E]; [now apply Gne in E | exact E] | auto].
  - rewrite !float_map_nan, <- (nan_in_column temperature_c df c Ht).
    destruct (mean_array (map (fun r => to_float (temperature_c r))
                              (pd.sort_values (pd.select_cell df c))))
      as (a & Ea & Na).
    rewrite Ea in Eat. apply OK_inj in Eat. subst a. rewrite Na.
    split; [intros [E | E]; [now apply Gne in E | exact E] | auto].
Qed.








End ProcessProofs.
(* ================================================================== *)
(** * Numeric edge cases *)

Module EdgeCaseProofs.
Import BatteryHealthProcessor ResistanceProofs SohProofs ProcessProofs.

(** The fit through points that share one abscissa [a]. *)
Lemma polyfit1_f_constant (pts : list (Q * Q)) (a : Q) :
  (1 <= length pts)%nat ->
  (forall p, In p pts -> fst p == a) ->
  fst (np.polyfit1_f (map fst pts) (map snd pts))
  == sumf snd pts / inject_Z (Z.of_nat (length pts)) / (2 * a).
Proof.
  intros Hn Hfst.
  assert (Ex : sumf fst pts == a * inject_Z (Z.of_nat (length pts))).
  { rewrite <- sumf_one. apply sumf_constant.
    intros p Hp. rewrite (Hfst p Hp). ring. }
  assert (Exx : sumf (fun p => fst p * fst p) pts == a * sumf fst pts).
  { apply sumf_constant. intros p Hp. rewrite (Hfst p Hp). reflexivity. }
  assert (G : gram pts == 0) by (unfold gram; rewrite Exx, Ex; ring).
  unfold np.polyfit1_f.
  rewrite dot_points, dot_self, length_map.
  fold (sumf fst pts) (sumf snd pts) (gram pts).
  apply Qeq_bool_iff in G. rewrite G. cbn [fst].
  destruct pts as [| p0 l]; [cbn in Hn; lia |].
  cbn [map hd]. rewrite (Hfst p0 (or_introl eq_refl)). reflexivity.
Qed.

(** Zero variance in the current: the samples that remain after the
    filter all have the current [a].  The fit is the rank-deficient one,
    and the result is [max(0, - mean(voltages) / (2 a) * 1000)] over the
    remaining samples. *)
Lemma constant_current_resistance (vs cs : list Q) (a : Q) :
  length vs = length cs ->
  (2 <= length (usable_samples vs cs))%nat ->
  (forall p, In p (usable_samples vs cs) -> fst p == a) ->
  exists r,
    calculate_internal_resistance (FloatArr vs) (FloatArr cs) = OK r /\
    r == Qmax 0 (- (np.mean_f (map snd (usable_samples vs cs)) / (2 * a)) * 1000).
Proof.
  intros Hlen Hn Hc.
  eexists. split; [now apply usable_samples_fit |].
  rewrite py_max_is_max.
  rewrite (polyfit1_f_constant (usable_samples vs cs) a); [| lia | exact Hc].
  unfold np.mean_f, sumf. rewrite length_map. reflexivity.
Qed.

(** Arrays of different lengths are outside the contract: the mask built
    from the currents does not fit the voltages. *)
Example unequal_lengths_raise :
  calculate_internal_resistance (FloatArr [3.7; 3.6; 3.5]) (FloatArr [1; 2])
  = Raise IndexError.
Proof. reflexivity. Qed.

(** C9.  No numeric edge case makes the resistance estimate or the
    clamping steps raise: for any two float arrays of one length the
    resistance is a number that is not negative, the state of health
    computed from it is a number in [0, 100], and the state of charge of
    any voltage is a number in [0, 100].  Empty arrays give 0; currents
    that are all the same non-zero value give the value of the
    rank-deficient fit. *)
Theorem numeric_edge_cases_never_raise (self : t) :
  (forall vs cs : list Q,
      length vs = length cs ->
      exists r s,
        calculate_internal_resistance (FloatArr vs) (FloatArr cs) = OK r /\
        0 <= r /\
        estimate_soh self None (Some r) 0 = OK s /\
        0 <= s <= 100) /\
  calculate_internal_resistance (FloatArr []) (FloatArr []) = OK 0 /\
  (forall (vs cs : list Q) (a : Q),
      length vs = length cs ->
      (2 <= length (usable_samples vs cs))%nat ->
      (forall p, In p (usable_samples vs cs) -> fst p == a) ->
      exists r,
        calculate_internal_resistance (FloatArr vs) (FloatArr cs) = OK r /\
        r == Qmax 0 (- (np.mean_f (map snd (usable_samples vs cs)) / (2 * a)) * 1000)) /\
  (forall v, 0 <= estimate_soc v <= 100).
Proof.
  split.
  { intros vs cs Hlen.
    destruct (calculate_internal_resistance_total vs cs Hlen) as (r & Hr & Hpos).
    exists r, (np.clip (np.mean_f [resistance_soh r]) 0 100).
    split; [exact Hr |]. split; [exact Hpos |].
    split; [apply estimate_soh_resistance_only |].
    apply clip_range. lra. }
  split; [reflexivity |].
  split; [exact constant_current_resistance |].
  exact SocProofs.estimate_soc_range.
Qed.

Lemma numeric_edge_cases_never_raise_witness :
  (exists r s,
      calculate_internal_resistance (FloatArr [3.7; 3.6]) (FloatArr [-2; -2]) = OK r /\
      0 <= r /\
      estimate_soh default None (Some r) 0 = OK s /\
      0 <= s <= 100) /\
  (exists r,
      calculate_internal_resistance
        (FloatArr [3.7; 3.8; 3.6]) (FloatArr [-2; 0; -2]) = OK r /\
      r == 912.5).
Proof.
  split.
  - apply (proj1 (numeric_edge_cases_never_raise default) [3.7; 3.6] [-2; -2]).
    reflexivity.
  - destruct (proj1 (proj2 (proj2 (numeric_edge_cases_never_raise default)))
               [3.7; 3.8; 3.6] [-2; 0; -2] (-2)) as (r & Hr & Er).
    + reflexivity.
    + vm_compute. lia.
    + vm_compute. intros p [<- | [<- | []]]; reflexivity.
    + exists r. split; [exact Hr |]. rewrite Er. reflexivity.
Defined.

End EdgeCaseProofs.

(* ================================================================== *)
(** * More on the state of charge *)

Module SocShape.
Import BatteryHealthProcessor SocProofs.

(** Between two voltages the interpolated line rises by at least the
    gentlest and at most the steepest slope of the table. *)
Lemma soc_interpolator_slopes (v1 v2 : Q) :
  v1 <= v2 ->
  (50 # 3) * (v2 - v1) <= soc_interpolator v2 - soc_interpolator v1
  /\ soc_interpolator v2 - soc_interpolator v1 <= 200 * (v2 - v1).
Proof.
  intros H12.
  destruct (soc_interpolator_cases v1)
    as [[P1 E1]|[[P1 E1]|[[P1 E1]|[[P1 E1]|[[P1 E1]|[[P1 E1]|[[P1 E1]|[[P1 E1]|[[P1 E1]|[[P1 E1]|[[P1 E1]|[P1 E1]]]]]]]]]]]];
  destruct (soc_interpolator_cases v2)
    as [[P2 E2]|[[P2 E2]|[[P2 E2]|[[P2 E2]|[[P2 E2]|[[P2 E2]|[[P2 E2]|[[P2 E2]|[[P2 E2]|[[P2 E2]|[[P2 E2]|[P2 E2]]]]]]]]]]]];
  try (exfalso; lra); split; lra.
Qed.

Lemma soc_interpolator_on_range (v : Q) :
  2.75 <= v <= 4.2 -> estimate_soc v == soc_interpolator v.
Proof. intros [H1 H2]. soc_cases v; lra. Qed.

Lemma clip_monotone (x y lo hi : Q) :
  x <= y -> np.clip x lo hi <= np.clip y lo hi.
Proof.
  intros H. unfold np.clip, np.maximum, np.minimum.
  repeat (destruct (Qlt_le_dec _ _)); lra.
Qed.

Lemma clip_contracts (x y lo hi : Q) :
  x <= y -> np.clip y lo hi - np.clip x lo hi <= y - x.
Proof.
  intros H. unfold np.clip, np.maximum, np.minimum.
  repeat (destruct (Qlt_le_dec _ _)); lra.
Qed.

(** X1.  The estimate never decreases with the voltage, on the whole
    axis, also outside the calibration table. *)
Theorem estimate_soc_monotone_everywhere (v1 v2 : Q) :
  v1 <= v2 -> estimate_soc v1 <= estimate_soc v2.
Proof.
  intros H. unfold estimate_soc. apply clip_monotone.
  destruct (soc_interpolator_slopes v1 v2 H). lra.
Qed.

Lemma estimate_soc_monotone_everywhere_witness :
  estimate_soc 1.5 <= estimate_soc 6.
Proof. apply (estimate_soc_monotone_everywhere 1.5 6). discriminate. Defined.

(** X2.  On the calibration range the estimate grows strictly, so two
    different voltages of the range never get the same estimate. *)
Theorem estimate_soc_strict_on_range (v1 v2 : Q) :
  2.75 <= v1 -> v1 < v2 -> v2 <= 4.2 ->
  estimate_soc v1 < estimate_soc v2.
Proof.
  intros H1 H12 H2.
  rewrite (soc_interpolator_on_range v1), (soc_interpolator_on_range v2) by lra.
  destruct (soc_interpolator_slopes v1 v2) as [L _]; lra.
Qed.

Lemma estimate_soc_strict_on_range_witness :
  estimate_soc 3.7 < estimate_soc 3.701.
Proof.
  apply (estimate_soc_strict_on_range 3.7 3.701); [discriminate | reflexivity | discriminate].
Defined.

(** X3.  Interpolation reproduces the calibration table: at each of the
    thirteen voltages the estimate is the tabulated value. *)
Theorem estimate_soc_at_calibration_points (p : Q * Q) :
  In p VOLTAGE_SOC_TABLE -> estimate_soc (fst p) == snd p.
Proof.
  intros Hp. cbn [VOLTAGE_SOC_TABLE In] in Hp.
  repeat (destruct Hp as [<- | Hp]; [reflexivity |]).
  contradiction.
Qed.

Lemma estimate_soc_at_calibration_points_witness : estimate_soc 3.9 == 80.
Proof.
  apply (estimate_soc_at_calibration_points (3.9, 80)).
  cbn. do 9 right. left. reflexivity.
Defined.

(** X4.  A change of the voltage by [d] volts changes the estimate by at
    most [200 d] percentage points, the slope of the steepest segment. *)
Theorem estimate_soc_sensitivity (v1 v2 : Q) :
  Qabs (estimate_soc v1 - estimate_soc v2) <= 200 * Qabs (v1 - v2).
Proof.
  assert (B : forall a b, a <= b ->
            0 <= estimate_soc b - estimate_soc a <= 200 * (b - a)).
  { intros a b Hab. destruct (soc_interpolator_slopes a b Hab) as [Lo Hi].
    pose proof (clip_monotone (soc_interpolator a) (soc_interpolator b) 0 100) as M.
    pose proof (clip_contracts (soc_interpolator a) (soc_interpolator b) 0 100) as C.
    unfold estimate_soc. split; [| specialize (C ltac:(lra))]; [specialize (M ltac:(lra)) |]; lra. }
  destruct (Qlt_le_dec v1 v2) as [L | L].
  - destruct (B v1 v2 (Qlt_le_weak _ _ L)).
    rewrite (Qabs_neg (estimate_soc v1 - estimate_soc v2)) by lra.
    rewrite (Qabs_neg (v1 - v2)) by lra. lra.
  - destruct (B v2 v1 L).
    rewrite (Qabs_pos (estimate_soc v1 - estimate_soc v2)) by lra.
    rewrite (Qabs_pos (v1 - v2)) by lra. lra.
Qed.

End SocShape.
(* ================================================================== *)
(** * More on the internal resistance *)

Module ResistanceShape.
Import BatteryHealthProcessor ResistanceProofs OrderProofs ProcessProofs.

Lemma sse_nonneg (pts : list (Q * Q)) (m b : Q) : 0 <= sse pts m b.
Proof. unfold sse. apply (sumf_sq_nonneg (fun p => snd p - (m * fst p + b))). Qed.

(** A line through all the points is a least-squares fit. *)
Lemma exact_line_is_ols_fit (pts : list (Q * Q)) (m b : Q) :
  (forall p, In p pts -> snd p == m * fst p + b) -> is_ols_fit pts m b.
Proof.
  intros H m' b'.
  assert (E : sse pts m b == 0).
  { unfold sse. rewrite (sumf_ext _ (fun _ => 0 * 1)).
    - rewrite (sumf_constant (fun _ => 0 * 1) (fun _ => 1) 0); [ring | reflexivity].
    - intros p Hp. rewrite (H p Hp). ring. }
  rewrite E. apply sse_nonneg.
Qed.

Lemma two_distinct_length {A} (l : list A) (p q : A) :
  In p l -> In q l -> p <> q -> (2 <= length l)%nat.
Proof.
  destruct l as [| a [| b l]]; cbn [In length]; intros Hp Hq Hne;
    [destruct Hp | | lia].
  destruct Hp as [<- | []], Hq as [<- | []]. now contradiction Hne.
Qed.

Lemma distinct_currents_length (pts : list (Q * Q)) :
  (exists p q, In p pts /\ In q pts /\ ~ fst p == fst q) -> (2 <= length pts)%nat.
Proof.
  intros (p & q & Hp & Hq & Hne).
  apply (two_distinct_length pts p q Hp Hq). intros ->. now apply Hne.
Qed.

Lemma usable_samples_In (vs cs : list Q) (p : Q * Q) :
  In p (usable_samples vs cs) -> In p (combine cs vs).
Proof. unfold usable_samples. intros H. now apply filter_In in H. Qed.

(** The slope fitted through the usable samples, when two of them differ in
    current, is the slope of any least-squares line. *)
Lemma fitted_slope_is (vs cs : list Q) (m b : Q) :
  length vs = length cs ->
  (exists p q, In p (usable_samples vs cs) /\ In q (usable_samples vs cs) /\
               ~ fst p == fst q) ->
  is_ols_fit (usable_samples vs cs) m b ->
  exists r, calculate_internal_resistance (FloatArr vs) (FloatArr cs) = OK r /\
            r == Qmax 0 (- m * 1000).
Proof.
  intros Hlen Hd Hfit.
  pose proof (distinct_currents_length _ Hd) as Hn.
  pose proof (distinct_gram _ Hd) as HD.
  eexists. split; [now apply usable_samples_fit |].
  rewrite py_max_is_max, (polyfit1_f_slope_regular _ HD).
  now rewrite <- (ols_slope_unique _ m b HD Hfit).
Qed.

(** X5.  Samples of an ideal cell, [v = V0 - R i] with two different
    non-zero currents among them, give back its resistance: the result is
    [max(0, 1000 R)], that is [1000 R] milliohms when [R] is not negative. *)
Theorem ohmic_cell_resistance_recovered (vs cs : list Q) (V0 R : Q) :
  length vs = length cs ->
  (forall c v, In (c, v) (combine cs vs) -> v == V0 - R * c) ->
  (exists p q, In p (usable_samples vs cs) /\ In q (usable_samples vs cs) /\
               ~ fst p == fst q) ->
  exists r, calculate_internal_resistance (FloatArr vs) (FloatArr cs) = OK r /\
            r == Qmax 0 (R * 1000) /\
            (0 <= R -> r == R * 1000).
Proof.
  intros Hlen Hohm Hd.
  destruct (fitted_slope_is vs cs (- R) V0 Hlen Hd) as (r & Hr & Er).
  - apply exact_line_is_ols_fit. intros [c v] Hp.
    apply usable_samples_In in Hp. cbn [fst snd]. rewrite (Hohm c v Hp). ring.
  - exists r. split; [exact Hr |].
    assert (E : - - R * 1000 == R * 1000) by ring.
    rewrite E in Er. split; [exact Er |].
    intros HR. rewrite Er. apply Q.max_r. lra.
Qed.

Lemma ohmic_cell_resistance_recovered_witness :
  exists r,
    calculate_internal_resistance
      (FloatArr [4.1; 4.05; 4.0; 3.95]) (FloatArr [0; 2; 4; 6]) = OK r /\
    r == 25.
Proof.
  destruct (ohmic_cell_resistance_recovered
              [4.1; 4.05; 4.0; 3.95] [0; 2; 4; 6] 4.1 0.025) as (r & Hr & _ & Er).
  - reflexivity.
  - cbn [combine In].
    intros c v [[= <- <-] | [[= <- <-] | [[= <- <-] | [[= <- <-] | []]]]]; reflexivity.
  - exists (2, 4.05), (4, 4.0). vm_compute. intuition discriminate.
  - exists r. split; [exact Hr |]. rewrite Er; [reflexivity | discriminate].
Defined.

Lemma sse_shift (pts : list (Q * Q)) (d m b : Q) :
  sse (map (fun p => (fst p, snd p + d)) pts) m b == sse pts m (b - d).
Proof.
  unfold sse, sumf. rewrite map_map.
  apply (sumf_ext (fun p => (snd p + d - (m * fst p + b)) * (snd p + d - (m * fst p + b)))
                  (fun p => (snd p - (m * fst p + (b - d))) * (snd p - (m * fst p + (b - d))))).
  intros p _. ring.
Qed.

Lemma combine_shift (vs cs : list Q) (d : Q) :
  combine cs (map (fun v => v + d) vs)
  = map (fun p => (fst p, snd p + d)) (combine cs vs).
Proof.
  revert vs. induction cs as [| c cs IH]; intros [| v vs]; try reflexivity.
  cbn [map combine fst snd]. now rewrite IH.
Qed.

Lemma usable_samples_shift (vs cs : list Q) (d : Q) :
  usable_samples (map (fun v => v + d) vs) cs
  = map (fun p => (fst p, snd p + d)) (usable_samples vs cs).
Proof.
  unfold usable_samples. rewrite combine_shift.
  induction (combine cs vs) as [| p l IH]; [reflexivity |].
  cbn [map List.filter].
  change (nonzero_current (fst p, snd p + d)) with (nonzero_current p).
  destruct (nonzero_current p); cbn [map]; now rewrite IH.
Qed.

(** X7.  With two different non-zero currents among the samples, adding
    one offset to every voltage leaves the resistance unchanged: the result
    does not depend on the level of the open-circuit voltage. *)
Theorem resistance_ignores_voltage_offset (vs cs : list Q) (d : Q) :
  length vs = length cs ->
  (exists p q, In p (usable_samples vs cs) /\ In q (usable_samples vs cs) /\
               ~ fst p == fst q) ->
  exists r r',
    calculate_internal_resistance (FloatArr vs) (FloatArr cs) = OK r /\
    calculate_internal_resistance (FloatArr (map (fun v => v + d) vs)) (FloatArr cs)
    = OK r' /\
    r == r'.
Proof.
  intros Hlen Hd.
  set (us := usable_samples vs cs) in *.
  set (m := fst (np.polyfit1_f (map fst us) (map snd us))).
  set (b := snd (np.polyfit1_f (map fst us) (map snd us))).
  assert (Hfit : is_ols_fit us m b).
  { apply polyfit1_f_is_ols_fit.
    - pose proof (distinct_currents_length _ Hd). lia.
    - intros p Hp. now apply (usable_samples_nonzero vs cs). }
  destruct (fitted_slope_is vs cs m b Hlen Hd Hfit) as (r & Hr & Er).
  destruct (fitted_slope_is (map (fun v => v + d) vs) cs m (b + d)) as (r' & Hr' & Er').
  - now rewrite length_map.
  - rewrite usable_samples_shift. fold us.
    destruct Hd as (p & q & Hp & Hq & Hne).
    exists (fst p, snd p + d), (fst q, snd q + d).
    split; [apply (in_map (fun p => (fst p, snd p + d)) _ _ Hp) |].
    split; [apply (in_map (fun p => (fst p, snd p + d)) _ _ Hq) | exact Hne].
  - rewrite usable_samples_shift. fold us.
    intros m' b'. rewrite !sse_shift.
    assert (E : b + d - d == b) by ring.
    assert (S : sse us m (b + d - d) == sse us m b).
    { unfold sse. apply sumf_ext. intros p _. rewrite E. reflexivity. }
    rewrite S. apply Hfit.
  - exists r, r'. split; [exact Hr |]. split; [exact Hr' |]. now rewrite Er, Er'.
Qed.

Lemma resistance_ignores_voltage_offset_witness :
  exists r r',
    calculate_internal_resistance (FloatArr [3.9; 3.8; 3.6]) (FloatArr [1; 2; 3]) = OK r /\
    calculate_internal_resistance
      (FloatArr (map (fun v => v + 0.25) [3.9; 3.8; 3.6])) (FloatArr [1; 2; 3]) = OK r' /\
    r == r'.
Proof.
  apply (resistance_ignores_voltage_offset [3.9; 3.8; 3.6] [1; 2; 3] 0.25).
  - reflexivity.
  - exists (1, 3.9), (2, 3.8). vm_compute. intuition discriminate.
Defined.



End ResistanceShape.
(* ================================================================== *)
(** * More on the state of health *)

Module SohShape.
Import BatteryHealthProcessor SohProofs.

Lemma resistance_soh_cases (r : Q) :
  (r <= 50 /\ resistance_soh r == 100) \/
  (150 <= r /\ resistance_soh r == 70) \/
  (50 < r < 150 /\ resistance_soh r == 100 - (3 # 10) * (r - 50)).
Proof.
  unfold resistance_soh, base_resistance, aged_resistance.
  destruct (Qle_bool r 50) eqn:E1.
  { left. apply Qle_bool_iff in E1. split; [exact E1 | reflexivity]. }
  destruct (Qle_bool 150 r) eqn:E2.
  { right. left. apply Qle_bool_iff in E2. split; [exact E2 | reflexivity]. }
  right. right.
  assert (H1 : ~ r <= 50) by (rewrite <- Qle_bool_iff; congruence).
  assert (H2 : ~ 150 <= r) by (rewrite <- Qle_bool_iff; congruence).
  apply Qnot_le_lt in H1, H2. split; [split; assumption | field].
Qed.

Lemma resistance_soh_antitone (r1 r2 : Q) :
  r1 <= r2 -> resistance_soh r2 <= resistance_soh r1.
Proof.
  intros H.
  destruct (resistance_soh_cases r1) as [[P1 E1] | [[P1 E1] | [P1 E1]]];
    destruct (resistance_soh_cases r2) as [[P2 E2] | [[P2 E2] | [P2 E2]]];
    rewrite E1, E2; lra.
Qed.

(** X9.  From the resistance alone the state of health is a number
    between 70 and 100 that never increases when the resistance grows. *)
Theorem soh_from_resistance_antitone (self : t) (r1 r2 : Q) :
  r1 <= r2 ->
  exists s1 s2,
    estimate_soh self None (Some r1) 0 = OK s1 /\
    estimate_soh self None (Some r2) 0 = OK s2 /\
    s2 <= s1 /\ 70 <= s2 /\ s1 <= 100.
Proof.
  intros H.
  exists (np.clip (np.mean_f [resistance_soh r1]) 0 100),
         (np.clip (np.mean_f [resistance_soh r2]) 0 100).
  split; [apply estimate_soh_resistance_only |].
  split; [apply estimate_soh_resistance_only |].
  pose proof (resistance_soh_antitone r1 r2 H) as A.
  pose proof (resistance_soh_range r1) as R1.
  pose proof (resistance_soh_range r2) as R2.
  pose proof (mean_f_1 (resistance_soh r1)) as M1.
  pose proof (mean_f_1 (resistance_soh r2)) as M2.
  unfold np.clip, np.maximum, np.minimum.
  repeat (destruct (Qlt_le_dec _ _)); lra.
Qed.

Lemma soh_from_resistance_antitone_witness :
  exists s1 s2,
    estimate_soh default None (Some 60) 0 = OK s1 /\
    estimate_soh default None (Some 120) 0 = OK s2 /\
    s2 <= s1 /\ 70 <= s2 /\ s1 <= 100.
Proof. apply (soh_from_resistance_antitone default 60 120). discriminate. Defined.

(** X10.  [estimate_soh] raises in one situation only: a capacity is
    supplied and the nominal capacity of the processor is zero; the
    exception is the [ZeroDivisionError] of the capacity ratio. *)
Theorem estimate_soh_raises_only_on_zero_nominal (self : t)
    (cap res : option Q) (cycles : Z) (e : exn) :
  estimate_soh self cap res cycles = Raise e <->
  e = ZeroDivisionError /\ cap <> None /\ nominal_capacity_ah self == 0.
Proof.
  unfold estimate_soh.
  destruct cap as [c |].
  - destruct (Qeq_bool (nominal_capacity_ah self) 0) eqn:E.
    + apply Qeq_bool_iff in E. cbn [mbind result_bind bind]. split.
      * intros [= <-]. repeat split; [discriminate | exact E].
      * intros (-> & _ & _). reflexivity.
    + assert (N : ~ nominal_capacity_ah self == 0)
        by (intros H; apply Qeq_bool_iff in H; congruence).
      destruct res as [r |]; destruct (0 <? cycles)%Z;
        cbn [mbind result_bind bind app];
        (split; [discriminate | intros (_ & _ & H); contradiction]).
  - destruct res as [r |]; destruct (0 <? cycles)%Z;
      cbn [mbind result_bind bind app];
      (split; [discriminate | intros (_ & H & _); now contradiction H]).
Qed.

Lemma estimate_soh_raises_only_on_zero_nominal_witness :
  estimate_soh {| nominal_capacity_ah := 0 |} (Some 45) None 0 = Raise ZeroDivisionError.
Proof.
  apply (proj2 (estimate_soh_raises_only_on_zero_nominal
                  {| nominal_capacity_ah := 0 |} (Some 45) None 0 ZeroDivisionError)).
  repeat split. discriminate.
Defined.

Lemma capacity_factor_monotone (n c c' : Q) :
  0 < n -> c <= c' -> capacity_factor n c <= capacity_factor n c'.
Proof.
  intros Hn Hc. unfold capacity_factor, Qdiv.
  apply Qmult_le_compat_r; [| discriminate].
  apply Qmult_le_compat_r; [exact Hc |].
  apply Qlt_le_weak, Qinv_lt_0_compat, Hn.
Qed.

Lemma resistance_factor_antitone (r r' : Q) :
  r' <= r -> resistance_factor r <= resistance_factor r'.
Proof.
  intros H. rewrite <- !resistance_soh_is_factor. now apply resistance_soh_antitone.
Qed.

Lemma cycle_factor_antitone (c c' : Z) :
  (c' <= c)%Z -> cycle_factor c <= cycle_factor c'.
Proof.
  intros H. unfold cycle_factor. rewrite Zle_Qle in H.
  apply Q.max_le_compat_l.
  set (a := inject_Z c) in *. set (b := inject_Z c') in *.
  assert (Ea : a / 2000 * 20 == a * (1 # 100)) by field.
  assert (Eb : b / 2000 * 20 == b * (1 # 100)) by field.
  rewrite Ea, Eb. lra.
Qed.

Lemma clamp_monotone (x y lo hi : Q) : x <= y -> clamp x lo hi <= clamp y lo hi.
Proof.
  intros H. unfold clamp. apply Q.max_le_compat_l, Q.min_le_compat_l, H.
Qed.

Lemma mean_monotone (a b : Q) (k : Z) :
  (0 < k)%Z -> a <= b -> a / inject_Z k <= b / inject_Z k.
Proof.
  intros Hk H. unfold Qdiv. apply Qmult_le_compat_r; [exact H |].
  apply Qlt_le_weak, Qinv_lt_0_compat.
  change 0 with (inject_Z 0). now rewrite <- Zlt_Qlt.
Qed.

Lemma soh_spec_monotone (n : Q) (cap cap' res res' : option Q) (cycles cycles' : Z) :
  0 < n ->
  option_le cap cap' ->
  option_le res' res ->
  (0 < cycles' <= cycles)%Z \/ (cycles <= 0 /\ cycles' <= 0)%Z ->
  soh_spec n cap res cycles <= soh_spec n cap' res' cycles'.
Proof.
  intros Hn Hc Hr Hy. unfold soh_spec.
  assert (F3 : exists f f' : option Q,
             (if (0 <? cycles)%Z then Some (cycle_factor cycles) else None) = f /\
             (if (0 <? cycles')%Z then Some (cycle_factor cycles') else None) = f' /\
             option_le f f').
  { destruct Hy as [[H1 H2] | [H1 H2]].
    - exists (Some (cycle_factor cycles)), (Some (cycle_factor cycles')).
      destruct (Z.ltb_spec 0 cycles); [| lia].
      destruct (Z.ltb_spec 0 cycles'); [| lia].
      repeat split. now apply cycle_factor_antitone.
    - exists None, None.
      destruct (Z.ltb_spec 0 cycles); [lia |].
      destruct (Z.ltb_spec 0 cycles'); [lia |]. repeat split. }
  destruct F3 as (f & f' & -> & -> & Hf).
  destruct cap as [c |], cap' as [c' |]; try contradiction;
    destruct res as [r |], res' as [r' |]; try contradiction;
    destruct f as [y |], f' as [y' |]; try contradiction;
    cbn [option_le] in Hc, Hr, Hf;
    cbn [option_map factor_value factor_count];
    repeat match goal with
           | |- context [ (?a + ?b + ?c)%Z ] =>
               let v := eval vm_compute in (a + b + c)%Z in
               change (a + b + c)%Z with v
           end;
    cbn [Z.eqb]; try lra;
    try pose proof (capacity_factor_monotone n c c' Hn Hc);
    try pose proof (resistance_factor_antitone r r' Hr);
    apply clamp_monotone, mean_monotone; try lia; lra.
Qed.

(** X11.  With a positive nominal capacity the state of health is
    monotone in each of its inputs: it does not decrease when the measured
    capacity grows, when the resistance drops and when the cycle count
    drops, the set of supplied inputs staying the same. *)
Theorem estimate_soh_monotone (self : t) (cap cap' res res' : option Q)
    (cycles cycles' : Z) :
  0 < nominal_capacity_ah self ->
  option_le cap cap' ->
  option_le res' res ->
  (0 < cycles' <= cycles)%Z \/ (cycles <= 0 /\ cycles' <= 0)%Z ->
  exists s s',
    estimate_soh self cap res cycles = OK s /\
    estimate_soh self cap' res' cycles' = OK s' /\
    s <= s'.
Proof.
  intros Hn Hc Hr Hy.
  assert (N : forall o : option Q, o = None \/ ~ nominal_capacity_ah self == 0)
    by (intros o; right; lra).
  destruct (estimate_soh_refines self cap res cycles (N cap)) as (s & Hs & Es).
  destruct (estimate_soh_refines self cap' res' cycles' (N cap')) as (s' & Hs' & Es').
  exists s, s'. split; [exact Hs |]. split; [exact Hs' |].
  rewrite Es, Es'. now apply soh_spec_monotone.
Qed.

Lemma estimate_soh_monotone_witness :
  exists s s',
    estimate_soh default (Some 40) (Some 120) 1500 = OK s /\
    estimate_soh default (Some 45) (Some 90) 500 = OK s' /\
    s <= s'.
Proof.
  apply (estimate_soh_monotone default (Some 40) (Some 45) (Some 120) (Some 90)
           1500 500).
  - reflexivity.
  - cbn. discriminate.
  - cbn. discriminate.
  - left. lia.
Defined.

End SohShape.
(* ================================================================== *)
(** * More on the measurement file pipeline *)

Module PipelineShape.
Import BatteryHealthProcessor ResistanceProofs SohProofs PandasProofs
  RoundProofs OrderProofs ArrayProofs ProcessProofs SocProofs.

(** ** Rounding keeps bounds *)

Lemma rint_ge (k : Z) (y : Q) : inject_Z k <= y -> (k <= rint y)%Z.
Proof.
  intros H. pose proof (Qfloor_resp_le _ _ H) as F. rewrite Qfloor_Z in F.
  unfold rint.
  destruct (Qlt_le_dec _ _); [exact F |].
  destruct (Qlt_le_dec _ _); [lia |].
  destruct (Z.even _); lia.
Qed.

Lemma rint_le (k : Z) (y : Q) : y <= inject_Z k -> (rint y <= k)%Z.
Proof.
  intros H. pose proof (Qfloor_resp_le _ _ H) as F. rewrite Qfloor_Z in F.
  assert (S : 1 # 2 <= y - inject_Z (Qfloor y) -> (Qfloor y + 1 <= k)%Z).
  { intros L. assert (Lt : inject_Z (Qfloor y) < inject_Z k) by lra.
    rewrite <- Zlt_Qlt in Lt. lia. }
  unfold rint.
  destruct (Qlt_le_dec _ _) as [L | L]; [exact F |].
  destruct (Qlt_le_dec _ _); [auto |].
  destruct (Z.even _); auto.
Qed.

Lemma round2_ge (k : Z) (x : Q) :
  inject_Z k / 100 <= x -> inject_Z k / 100 <= round2 x.
Proof.
  intros H. unfold round2. rewrite Qred_correct.
  assert (Hk : inject_Z k <= x * 100).
  { assert (E : inject_Z k == inject_Z k / 100 * 100) by field. rewrite E. lra. }
  apply rint_ge in Hk. rewrite Zle_Qle in Hk.
  set (a := inject_Z k) in *. set (b := inject_Z (rint (x * 100))) in *.
  assert (Ea : a / 100 == a * (1 # 100)) by field.
  assert (Eb : b / 100 == b * (1 # 100)) by field.
  rewrite Ea, Eb. lra.
Qed.

Lemma round2_le (k : Z) (x : Q) :
  x <= inject_Z k / 100 -> round2 x <= inject_Z k / 100.
Proof.
  intros H. unfold round2. rewrite Qred_correct.
  assert (Hk : x * 100 <= inject_Z k).
  { assert (E : inject_Z k == inject_Z k / 100 * 100) by field. rewrite E. lra. }
  apply rint_le in Hk. rewrite Zle_Qle in Hk.
  set (a := inject_Z k) in *. set (b := inject_Z (rint (x * 100))) in *.
  assert (Ea : a / 100 == a * (1 # 100)) by field.
  assert (Eb : b / 100 == b * (1 # 100)) by field.
  rewrite Ea, Eb. lra.
Qed.

Lemma round2_between (lo hi : Z) (x : Q) :
  inject_Z lo <= x <= inject_Z hi -> inject_Z lo <= round2 x <= inject_Z hi.
Proof.
  intros [L H].
  assert (El : inject_Z lo == inject_Z (lo * 100) / 100)
    by (rewrite inject_Z_mult; field).
  assert (Eh : inject_Z hi == inject_Z (hi * 100) / 100)
    by (rewrite inject_Z_mult; field).
  split.
  - rewrite El. apply round2_ge. now rewrite <- El.
  - rewrite Eh. apply round2_le. now rewrite <- Eh.
Qed.

(** ** Bounds of a record *)

Lemma process_cell_in_bounds (self : t) (df : list row) (c : Z) (m : metric) :
  process_cell self df (Some c) = OK m -> in_bounds m.
Proof.
  intros H.
  apply process_cell_ok in H as (_ & _ & av & r & at_ & _ & Hr & _ & ->).
  apply calculate_internal_resistance_nonneg in Hr.
  unfold in_bounds. cbn [soc_percent soh_percent internal_resistance].
  split; [| split].
  - intros soc E. destruct av as [v |]; cbn [float_map] in E; [| discriminate].
    apply Fin_inj in E. subst soc.
    apply (round2_between 0 100). apply estimate_soc_range.
  - apply (round2_between 70 100).
    pose proof (resistance_soh_range r) as R.
    pose proof (mean_f_1 (resistance_soh r)) as M.
    change (inject_Z 70) with 70. change (inject_Z 100) with 100.
    unfold np.clip, np.maximum, np.minimum.
    repeat (destruct (Qlt_le_dec _ _)); lra.
  - assert (E : inject_Z 0 / 100 == 0) by reflexivity.
    assert (G : inject_Z 0 / 100 <= round2 r)
      by (apply round2_ge; rewrite E; exact Hr).
    rewrite E in G. exact G.
Qed.

Lemma process_out_in_bounds (self : t) (df : list row) (out : list metric) (m : metric) :
  process_measurement_file self df = OK out -> In m out -> in_bounds m.
Proof.
  intros H Hm. destruct (process_out_cell self df out m H Hm) as [_ Hc].
  exact (process_cell_in_bounds self df _ m Hc).
Qed.

(** X12.  Whatever the file holds, empty cells included, when the
    pipeline returns, every record it returns has a state of health
    between 70 and 100, a resistance that is not negative and a state of
    charge that is nan or lies between 0 and 100; rounding to two decimals
    keeps these bounds. *)
Theorem process_measurement_file_in_bounds (self : t) (df : list row)
    (out : list metric) :
  process_measurement_file self df = OK out -> Forall in_bounds out.
Proof.
  intros H. apply Forall_forall. intros m Hm.
  destruct (process_out_cell self df out m H Hm) as [_ Hc].
  exact (process_cell_in_bounds self df _ m Hc).
Qed.

Lemma process_measurement_file_in_bounds_witness :
  Forall in_bounds
    [ {| m_cell_id := 1; soc_percent := NaN; soh_percent := 100;
         internal_resistance := 0; m_temperature_c := 51 # 2 |};
      {| m_cell_id := 2; soc_percent := 80; soh_percent := 100;
         internal_resistance := 0; m_temperature_c := NaN |} ].
Proof.
  apply (process_measurement_file_in_bounds default missing_readings_file).
  vm_compute. reflexivity.
Defined.

(** ** Cells without enough samples *)

Lemma numeric_currents_count (g : list row) :
  ~ In NaN (map (fun r => to_float (current_a r)) g) ->
  length (List.filter float_ne_zero (map (fun r => to_float (current_a r)) g))
  = length (List.filter np.nonzero (currents_of g)).
Proof.
  induction g as [| r g IH]; intros H; [reflexivity |].
  cbn [map List.filter currents_of] in *.
  destruct (current_a r) as [q | s]; cbn [to_float as_num float_ne_zero] in *.
  - assert (H' : ~ In NaN (map (fun r => to_float (current_a r)) g))
      by (intros N; apply H; now right).
    fold (np.nonzero q). fold (currents_of g).
    destruct (np.nonzero q); cbn [length]; now rewrite (IH H').
  - exfalso. apply H. now left.
Qed.

(** X13.  A cell with fewer than two rows of non-zero current (so also a
    cell with a single row) is reported with resistance 0 and state of
    health 100, whatever its voltages are. *)
Theorem process_measurement_file_few_samples (self : t) (df : list row)
    (out : list metric) (m : metric) :
  process_measurement_file self df = OK out ->
  In m out ->
  (length (List.filter np.nonzero
             (currents_of (pd.select_cell df (m_cell_id m)))) < 2)%nat ->
  internal_resistance m = 0 /\ soh_percent m = 100.
Proof.
  intros H Hm Hn.
  destruct (process_out_cell self df out m H Hm) as [_ Hc].
  set (c := m_cell_id m) in *.
  apply process_cell_ok in Hc as (_ & _ & av & r & at_ & _ & Hr & _ & Em).
  set (g := pd.sort_values (pd.select_cell df c)) in *.
  set (C := map (fun r => to_float (current_a r)) g) in *.
  assert (P : Permutation (List.filter np.nonzero (currents_of g))
                          (List.filter np.nonzero (currents_of (pd.select_cell df c)))).
  { apply filter_perm. unfold currents_of. apply Permutation_map.
    apply sort_values_perm. }
  apply Permutation_length in P.
  assert (E0 : r = 0).
  { rewrite calculate_internal_resistance_array in Hr
      by (unfold C; now rewrite !length_map).
    destruct (length C <? 2)%nat; [now apply OK_inj in Hr |].
    destruct (Nat.ltb_spec (length (List.filter float_ne_zero C)) 2) as [L | L];
      [now apply OK_inj in Hr |].
    destruct (nan_dec C) as [N | N].
    - rewrite polyfit1_array_nan in Hr by (now apply filter_ne_zero_nan).
      discriminate.
    - unfold C in L. rewrite numeric_currents_count in L by exact N. lia. }
  subst r. rewrite Em. split; reflexivity.
Qed.

Lemma process_measurement_file_few_samples_witness :
  internal_resistance
    {| m_cell_id := 1; soc_percent := 175 # 2; soh_percent := 100;
       internal_resistance := 0; m_temperature_c := 49 # 2 |} = 0 /\
  soh_percent
    {| m_cell_id := 1; soc_percent := 175 # 2; soh_percent := 100;
       internal_resistance := 0; m_temperature_c := 49 # 2 |} = 100.
Proof.
  apply (process_measurement_file_few_samples default interleaved_file
           [ {| m_cell_id := 2; soc_percent := 40; soh_percent := 100;
                internal_resistance := 50; m_temperature_c := 51 # 2 |};
             {| m_cell_id := 1; soc_percent := 175 # 2; soh_percent := 100;
                internal_resistance := 0; m_temperature_c := 49 # 2 |} ]).
  - vm_compute. reflexivity.
  - right. left. reflexivity.
  - vm_compute. lia.
Defined.

(** ** Cells do not influence each other *)

(** X20.  The record of a cell is computed from the rows of that cell
    alone: when two files are both processed without an exception and
    hold the same rows for a cell, the record of that cell in the result
    of the first file is also in the result of the second, whatever the
    other cells' rows are. *)
Theorem cell_record_ignores_other_cells (self : t) (df df' : list row)
    (out out' : list metric) (m : metric) :
  process_measurement_file self df = OK out ->
  process_measurement_file self df' = OK out' ->
  In m out ->
  pd.select_cell df (m_cell_id m) = pd.select_cell df' (m_cell_id m) ->
  In m out'.
Proof.
  intros H H' Hm Hsel.
  destruct (process_out_cell self df out m H Hm) as [Hid Hc].
  set (c := m_cell_id m) in *.
  assert (Hid' : In (Some c) (pd.unique (map cell_id df'))).
  { apply select_cell_nonempty_id. rewrite <- Hsel.
    now apply id_select_cell_nonempty. }
  destruct (for_each_in _ _ _ _ H' Hid') as (m' & Hc' & Hin').
  apply process_cell_ok in Hc as (_ & _ & av & r & at_ & Eav & Er & Eat & Em).
  apply process_cell_ok in Hc' as (_ & _ & av' & r' & at' & Eav' & Er' & Eat' & Em').
  rewrite <- Hsel in Eav', Er', Eat'.
  rewrite Eav in Eav'. rewrite Er in Er'. rewrite Eat in Eat'.
  apply OK_inj in Eav', Er', Eat'. subst av' r' at'.
  rewrite Em. rewrite <- Em'. exact Hin'.
Qed.

Lemma cell_record_ignores_other_cells_witness :
  In {| m_cell_id := 1; soc_percent := 175 # 2; soh_percent := 100;
        internal_resistance := 0; m_temperature_c := 49 # 2 |}
     [ {| m_cell_id := 1; soc_percent := 175 # 2; soh_percent := 100;
          internal_resistance := 0; m_temperature_c := 49 # 2 |} ].
Proof.
  apply (cell_record_ignores_other_cells default interleaved_file
           (pd.select_cell interleaved_file 1)
           [ {| m_cell_id := 2; soc_percent := 40; soh_percent := 100;
                internal_resistance := 50; m_temperature_c := 51 # 2 |};
             {| m_cell_id := 1; soc_percent := 175 # 2; soh_percent := 100;
                internal_resistance := 0; m_temperature_c := 49 # 2 |} ]).
  - vm_compute. reflexivity.
  - vm_compute. reflexivity.
  - right. left. reflexivity.
  - reflexivity.
Defined.

End PipelineShape.
(* ================================================================== *)
(** * Thresholds from the database and the stored flag *)

Module UploadProofs.
Import UploadHandler ThresholdProofs.

Lemma find_app {A} (p : A -> bool) (l l' : list A) :
  List.find p (l ++ l')
  = match List.find p l with Some x => Some x | None => List.find p l' end.
Proof.
  induction l as [| a l IH]; [reflexivity |].
  cbn [List.find app]. destruct (p a); [reflexivity | exact IH].
Qed.

Lemma fold_thresholds_lookup (ts : list models.HealthThreshold)
    (d : gmap string (option Q * option Q)) (k : string) :
  fold_left
    (fun d t => <[models.metric_type t := (models.min_value t, models.max_value t)]> d)
    ts d !! k
  = match last_threshold k ts with
    | Some t => Some (models.min_value t, models.max_value t)
    | None => d !! k
    end.
Proof.
  revert d. induction ts as [| t ts IH]; intros d; [reflexivity |].
  cbn [fold_left]. rewrite IH. unfold last_threshold. cbn [rev].
  rewrite find_app.
  destruct (List.find _ (rev ts)) as [t' |]; [reflexivity |].
  cbn [List.find]. destruct (bool_decide_reflect (models.metric_type t = k)) as [E | N].
  - rewrite E. apply lookup_insert_eq.
  - now apply lookup_insert_ne.
Qed.

(** X16.  The mapping built from the threshold rows holds, for a metric
    type, the bounds of the last row of that type in the order of the
    query result, and nothing for a type without a row: of two rows for
    one metric type only the later one is ever checked. *)
Theorem threshold_dict_last_row_wins (ts : list models.HealthThreshold) (k : string) :
  Upload.threshold_dict ts !! k
  = (fun t => (models.min_value t, models.max_value t)) <$> last_threshold k ts.
Proof.
  unfold Upload.threshold_dict. rewrite fold_thresholds_lookup.
  destruct (last_threshold k ts); [reflexivity | apply lookup_empty].
Qed.

Lemma soh_check_monotone (m m' : metric) (t : gmap string (option Q * option Q)) :
  soh_percent m <= soh_percent m' -> soh_check m t = true -> soh_check m' t = true.
Proof.
  unfold soh_check. intros H.
  destruct (t !! "soh"%string) as [[[mn |] mx] |]; try reflexivity.
  rewrite !Qle_bool_iff. lra.
Qed.

Lemma resistance_check_monotone (m m' : metric) (t : gmap string (option Q * option Q)) :
  internal_resistance m' <= internal_resistance m ->
  resistance_check m t = true -> resistance_check m' t = true.
Proof.
  unfold resistance_check. intros H.
  destruct (t !! "resistance"%string) as [[mn [mx |]] |]; try reflexivity.
  rewrite !Qle_bool_iff. lra.
Qed.

Lemma temperature_check_monotone (m m' : metric) (t : gmap string (option Q * option Q)) :
  float_le (m_temperature_c m') (m_temperature_c m) ->
  temperature_check m t = true -> temperature_check m' t = true.
Proof.
  unfold temperature_check. intros H.
  destruct (t !! "temperature"%string) as [[mn [mx |]] |]; try reflexivity.
  rewrite !float_leb_iff.
  destruct (m_temperature_c m') as [a |], (m_temperature_c m) as [b |];
    cbn [float_le] in *; try contradiction. lra.
Qed.

(** X17.  The verdict is monotone: a metric that passes keeps passing
    when its state of health rises and its resistance and temperature
    fall, whatever the thresholds are; the state of charge and the cell id
    play no part.  A nan temperature is not at most any other, so the
    temperatures compared are numbers. *)
Theorem check_thresholds_monotone (m m' : metric)
    (t : gmap string (option Q * option Q)) :
  at_least_as_healthy m' m ->
  _check_thresholds m t = true -> _check_thresholds m' t = true.
Proof.
  intros (H1 & H2 & H3). rewrite !check_thresholds_checks, !andb_true_iff.
  intros [[S R] T]. repeat split.
  - exact (soh_check_monotone m m' t H1 S).
  - exact (resistance_check_monotone m m' t H2 R).
  - exact (temperature_check_monotone m m' t H3 T).
Qed.

Lemma check_thresholds_monotone_witness :
  _check_thresholds
    {| m_cell_id := 7; soc_percent := 10; soh_percent := 95;
       internal_resistance := 60; m_temperature_c := 20 |}
    (<["soh"%string := (Some 80, None)]>
       (<["resistance"%string := (None, Some 120)]> ∅)) = true.
Proof.
  apply (check_thresholds_monotone sample_metric).
  - unfold at_least_as_healthy, sample_metric. cbn. repeat split; discriminate.
  - vm_compute. reflexivity.
Defined.

(** X18.  The pipeline never reports a state of health below 70, so a
    "soh" threshold whose minimum is at most 70 cannot fail a record: when
    a record built from a file is flagged as failing under such
    thresholds, its resistance exceeds the maximum of the "resistance"
    threshold, or its temperature exceeds the maximum of the
    "temperature" threshold, or such a maximum is set and the temperature
    is nan, which is the case when a temperature of the cell is
    missing. *)
Theorem failing_flag_has_a_cause (df : list row)
    (ts : list models.HealthThreshold) (measurement_id : Z)
    (hms : list models.HealthMetric) (hm : models.HealthMetric) :
  Upload.process_and_store_metrics df ts measurement_id = OK hms ->
  In hm hms ->
  (forall mn mx,
      Upload.threshold_dict ts !! "soh"%string = Some (Some mn, mx) -> mn <= 70) ->
  models.passes_threshold hm = false ->
  (exists mn mx,
      Upload.threshold_dict ts !! "resistance"%string = Some (mn, Some mx) /\
      mx < models.internal_resistance hm) \/
  (exists mn mx temp,
      Upload.threshold_dict ts !! "temperature"%string = Some (mn, Some mx) /\
      models.temperature_c hm = Fin temp /\ mx < temp) \/
  (exists mn mx,
      Upload.threshold_dict ts !! "temperature"%string = Some (mn, Some mx) /\
      models.temperature_c hm = NaN /\
      exists r, In r (rows_of_cell df (models.cell_id hm)) /\
                read_as_missing (temperature_c r)).
Proof.
  unfold Upload.process_and_store_metrics.
  destruct (BatteryHealthProcessor.process_measurement_file _ df) as [out | e] eqn:Ho;
    cbn [mbind result_bind bind]; [| discriminate].
  intros E Hin Hsoh Hp. apply OK_inj in E. subst hms.
  apply in_map_iff in Hin as (m & <- & Hm).
  cbn [models.passes_threshold models.internal_resistance models.temperature_c
       models.cell_id] in *.
  destruct (PipelineShape.process_out_in_bounds _ _ _ _ Ho Hm) as (_ & [Hs _] & _).
  destruct (ProcessProofs.process_out_cell _ _ _ _ Ho Hm) as [Hid Hc].
  destruct (ProcessProofs.process_cell_nan _ _ _ _ Hc
              (ProcessProofs.id_select_cell_nonempty _ _ Hid)) as [_ Hnan].
  set (d := Upload.threshold_dict ts) in *.
  rewrite check_thresholds_checks in Hp.
  assert (S : soh_check m d = true).
  { unfold soh_check. destruct (d !! "soh"%string) as [[[mn |] mx] |] eqn:Ed;
      try reflexivity.
    apply Qle_bool_iff. specialize (Hsoh mn mx eq_refl). lra. }
  rewrite S in Hp. cbn [andb] in Hp.
  apply andb_false_iff in Hp as [R | T].
  - left. unfold resistance_check in R.
    destruct (d !! "resistance"%string) as [[mn [mx |]] |]; try discriminate.
    exists mn, mx. split; [reflexivity |].
    apply Qnot_le_lt. intros L. apply Qle_bool_iff in L. congruence.
  - right. unfold temperature_check in T.
    destruct (d !! "temperature"%string) as [[mn [mx |]] |]; try discriminate.
    destruct (m_temperature_c m) as [temp |] eqn:Et.
    + left. exists mn, mx, temp. split; [reflexivity |]. split; [reflexivity |].
      apply Qnot_le_lt. intros L. apply Qle_bool_iff in L.
      cbn [float_leb] in T. congruence.
    + right. exists mn, mx. split; [reflexivity |]. split; [reflexivity |].
      now apply Hnan.
Qed.

Lemma failing_flag_has_a_cause_witness :
  (exists mn mx,
      Upload.threshold_dict sample_thresholds !! "resistance"%string
      = Some (mn, Some mx) /\
      mx < 50) \/
  (exists mn mx temp,
      Upload.threshold_dict sample_thresholds !! "temperature"%string
      = Some (mn, Some mx) /\
      Fin (51 # 2) = Fin temp /\ mx < temp) \/
  (exists mn mx,
      Upload.threshold_dict sample_thresholds !! "temperature"%string
      = Some (mn, Some mx) /\
      Fin (51 # 2) = NaN /\
      exists r, In r (rows_of_cell interleaved_file 2) /\
                read_as_missing (temperature_c r)).
Proof.
  apply (failing_flag_has_a_cause interleaved_file sample_thresholds 9
           [ {| models.metric_id := None; models.measurement_id := 9;
                models.cell_id := 2; models.soc_percent := 40;
                models.soh_percent := 100; models.internal_resistance := 50;
                models.temperature_c := 51 # 2; models.passes_threshold := false |};
             {| models.metric_id := None; models.measurement_id := 9;
                models.cell_id := 1; models.soc_percent := 175 # 2;
                models.soh_percent := 100; models.internal_resistance := 0;
                models.temperature_c := 49 # 2; models.passes_threshold := true |} ]
           {| models.metric_id := None; models.measurement_id := 9;
              models.cell_id := 2; models.soc_percent := 40;
              models.soh_percent := 100; models.internal_resistance := 50;
              models.temperature_c := 51 # 2; models.passes_threshold := false |}).
  - vm_compute. reflexivity.
  - left. reflexivity.
  - intros mn mx H. vm_compute in H. injection H as <- _. discriminate.
  - reflexivity.
Defined.

End UploadProofs.
(* ================================================================== *)
(** * The summary table *)

Module ChartProofs.
Import BatteryCharts.

Lemma list_repeat_length {A} (l : list A) (k : nat) :
  length (list_repeat l k) = (k * length l)%nat.
Proof.
  unfold list_repeat. induction k as [| k IH]; [reflexivity |].
  cbn [repeat concat]. rewrite length_app, IH. lia.
Qed.

Lemma stripes_nth (a b : string) (k i : nat) :
  (i < 2 * k)%nat ->
  nth_error (list_repeat [a; b] k) i = Some (if Nat.even i then a else b).
Proof.
  unfold list_repeat. revert i. induction k as [| k IH]; intros i H; [lia |].
  cbn [repeat concat app].
  destruct i as [| [| i]]; [reflexivity | reflexivity |].
  cbn [nth_error]. rewrite IH by lia. reflexivity.
Qed.

Lemma firstn_singleton {A} (x : A) (n : nat) : (0 < n)%nat -> firstn n [x] = [x].
Proof.
  destruct n as [| n]; [lia |]. intros _. cbn [firstn]. now rewrite firstn_nil.
Qed.

(** X19.  The row colours of the summary table are not cut to the number
    of rows.  With no metric the function raises before it builds them;
    for [n >= 1] metrics the argument is a single column of colours that
    alternates white and light gray and has [2 (n div 2 + 1)] entries,
    always more than [n]. *)
Theorem fill_color_is_one_long_column (n : nat) :
  fill_color 0 = Raise KeyError /\
  ((0 < n)%nat ->
   exists stripes,
     fill_color n = OK [stripes] /\
     length stripes = (2 * (n / 2 + 1))%nat /\
     (n < length stripes)%nat /\
     forall i, (i < length stripes)%nat ->
               nth_error stripes i
               = Some (if Nat.even i then "white" else "lightgray")%string).
Proof.
  split; [reflexivity |].
  intros Hn. unfold fill_color.
  destruct (Nat.eqb_spec n 0) as [E | _]; [lia |].
  exists (list_repeat ["white"; "lightgray"]%string (n / 2 + 1)).
  assert (L : length (list_repeat ["white"; "lightgray"]%string (n / 2 + 1))
              = (2 * (n / 2 + 1))%nat)
    by (rewrite list_repeat_length; cbn [length]; lia).
  split.
  { f_equal. now apply firstn_singleton. }
  split; [exact L |]. split.
  { rewrite L. pose proof (Nat.div_mod_eq n 2) as D.
    pose proof (Nat.mod_upper_bound n 2). lia. }
  intros i Hi. rewrite L in Hi. now apply stripes_nth.
Qed.

Lemma fill_color_is_one_long_column_witness :
  exists stripes,
    fill_color 3 = OK [stripes] /\
    length stripes = (2 * (3 / 2 + 1))%nat /\
    (3 < length stripes)%nat /\
    forall i, (i < length stripes)%nat ->
              nth_error stripes i
              = Some (if Nat.even i then "white" else "lightgray")%string.
Proof. apply (proj2 (fill_color_is_one_long_column 3)). lia. Defined.

End ChartProofs.
